(** * The edge worker: rate limiter, cache layer, remote document fetcher
      and access validator

    A shallow embedding of the worker script (the module exporting [fetch],
    with [checkRateLimit], [getCachedData], [setCachedData],
    [handleValidation], [verifyTurnstile], [getBlacklist], [getWhitelistSet],
    [getRandomRedirectUrl] and [serveStaticFile]).

    The script is asynchronous JavaScript over three external services: a
    key-value store, plain HTTP and a bot-verification endpoint.  Every
    [await] is a sequence point of one handler invocation, so the embedding
    is a state-and-exception monad over a [World] holding the store, the
    clock, the replies of the remote services and a trace of the external
    calls performed.  [console.log] and [console.error] are not modelled. *)

From Stdlib Require Import ZArith NArith List Ascii String Bool Lia.
From stdpp Require Import base option gmap strings list.
Import ListNotations.

Local Open Scope string_scope.
Local Open Scope Z_scope.

(** ** JavaScript values used by the script *)

(** A JavaScript number that is either an integer or [NaN].  The script only
    produces numbers by [parseInt], [Date.now], [length], [+], [-] and [*].
    Integers are kept exact.  The numbers of the engine are double-precision
    floats, whose arithmetic is exact as long as the operands and the result
    are safe integers; a statement about the value of a sum, a difference or
    a product is made for safe integers. *)
Inductive num : Type :=
  | NaN
  | Int (z : Z).

(** [Number.MAX_SAFE_INTEGER], [2^53 - 1]. *)
Definition MAX_SAFE_INTEGER : Z := 9007199254740991.

(** [Number.isSafeInteger] *)
Definition isSafeInteger (z : Z) : Prop :=
  - MAX_SAFE_INTEGER <= z <= MAX_SAFE_INTEGER.

(** The largest time value of a [Date], in milliseconds. *)
Definition maxTimeValue : Z := 8640000000000000.

Definition num_add (a b : num) : num :=
  match a, b with Int x, Int y => Int (x + y) | _, _ => NaN end.

Definition num_sub (a b : num) : num :=
  match a, b with Int x, Int y => Int (x - y) | _, _ => NaN end.

Definition num_mul (a b : num) : num :=
  match a, b with Int x, Int y => Int (x * y) | _, _ => NaN end.

(** [a < b], [a > b], [a >= b]: every comparison with [NaN] is false. *)
Definition num_lt (a b : num) : bool :=
  match a, b with Int x, Int y => x <? y | _, _ => false end.

Definition num_gt (a b : num) : bool := num_lt b a.

Definition num_ge (a b : num) : bool :=
  match a, b with Int x, Int y => y <=? x | _, _ => false end.

(** [a || b] on a value that is [undefined]/[null] or a string: the empty
    string is falsy. *)
Definition orElse (a : option string) (b : string) : string :=
  match a with
  | Some s => if String.eqb s EmptyString then b else s
  | None => b
  end.

Definition truthy (a : option string) : bool :=
  match a with
  | Some s => negb (String.eqb s EmptyString)
  | None => false
  end.

(** Template-literal interpolation of a possibly undefined value. *)
Definition interp (a : option string) : string :=
  match a with Some s => s | None => "undefined" end.

(** ** String primitives *)

Definition code (c : ascii) : Z := Z.of_N (N_of_ascii c).

(** White space as [String.prototype.trim], [parseInt] and the regular
    expression class [\s] see it: TAB, LF, VT, FF, CR, SP, U+00A0, U+1680,
    U+2000 to U+200A, U+2028, U+2029, U+202F, U+205F, U+3000 and U+FEFF.
    A string is the sequence of the bytes of its UTF-8 encoding, so a
    white-space character is one to three bytes long. *)
Definition isAsciiWhite (c : ascii) : bool :=
  let n := code c in ((9 <=? n) && (n <=? 13)) || (n =? 32).

(** The number of bytes of the white-space character that [cs] starts with,
    and 0 when it starts with none. *)
Definition whiteLength (cs : list ascii) : nat :=
  match cs with
  | [] => 0%nat
  | c :: rest =>
      if isAsciiWhite c then 1%nat
      else
        match List.map code (c :: rest) with
        | 194 :: 160 :: _ => 2%nat
        | 225 :: 154 :: 128 :: _ => 3%nat
        | 226 :: 128 :: n :: _ =>
            if ((128 <=? n) && (n <=? 138)) || (n =? 168) || (n =? 169) || (n =? 175)
            then 3%nat else 0%nat
        | 226 :: 129 :: 159 :: _ => 3%nat
        | 227 :: 128 :: 128 :: _ => 3%nat
        | 239 :: 187 :: 191 :: _ => 3%nat
        | _ => 0%nat
        end
  end.

(** Drop white-space characters from the head of [cs]; [pending] counts the
    bytes still to drop of the character being dropped. *)
Fixpoint skipWhite (pending : nat) (cs : list ascii) : list ascii :=
  match cs with
  | [] => []
  | c :: rest =>
      match pending with
      | S k => skipWhite k rest
      | O =>
          match whiteLength cs with
          | S k => skipWhite k rest
          | O => cs
          end
      end
  end.

Definition dropWhite (cs : list ascii) : list ascii := skipWhite 0 cs.

(** Cut [cs] where what follows is white space only. *)
Fixpoint trimEnd (cs : list ascii) : list ascii :=
  match cs with
  | [] => []
  | c :: rest =>
      match dropWhite cs with
      | [] => []
      | _ :: _ => c :: trimEnd rest
      end
  end.

Definition trim (s : string) : string :=
  string_of_list_ascii (trimEnd (dropWhite (list_ascii_of_string s))).

(** [String.prototype.toLowerCase] applies the Unicode case mappings of the
    JavaScript engine the worker runs on.  The embedding does not fix them:
    the script is read over any engine, of which it only needs that
    lower-casing a lower-cased string changes nothing. *)
Class Engine : Type := mkEngine {
  toLowerCase : string -> string;
  toLowerCase_idempotent : forall s, toLowerCase (toLowerCase s) = toLowerCase s;
}.

(** [s.split('\n')]: always at least one piece. *)
Fixpoint splitLines (s : string) : list string :=
  match s with
  | EmptyString => [EmptyString]
  | String c s' =>
      if Ascii.eqb c "010"%char then EmptyString :: splitLines s'
      else match splitLines s' with
           | l :: ls => String c l :: ls
           | [] => [String c EmptyString]
           end
  end.

Fixpoint hasChar (c : ascii) (s : string) : bool :=
  match s with
  | EmptyString => false
  | String d s' => Ascii.eqb c d || hasChar c s'
  end.

Fixpoint startsWith (p s : string) : bool :=
  match p, s with
  | EmptyString, _ => true
  | String a p', String b s' => Ascii.eqb a b && startsWith p' s'
  | String _ _, EmptyString => false
  end.

Definition includes (l : list string) (x : string) : bool :=
  existsb (String.eqb x) l.

(** *** [parseInt] *)

Definition digitVal (radix : Z) (c : ascii) : option Z :=
  let n := code c in
  let v := if (48 <=? n) && (n <=? 57) then Some (n - 48)
           else if (97 <=? n) && (n <=? 122) then Some (n - 87)
           else if (65 <=? n) && (n <=? 90) then Some (n - 55)
           else None in
  match v with
  | Some d => if d <? radix then Some d else None
  | None => None
  end.

Fixpoint digitsPrefix (radix : Z) (cs : list ascii) (acc : option Z) : option Z :=
  match cs with
  | [] => acc
  | c :: cs' =>
      match digitVal radix c with
      | Some d =>
          digitsPrefix radix cs'
            (Some (match acc with Some a => a * radix + d | None => d end))
      | None => acc
      end
  end.

(** [parseInt(s)] without a radix: leading white space, a sign, an optional
    [0x] prefix, then the longest run of digits; [NaN] when there is none. *)
Definition parseInt (s : string) : num :=
  let cs := dropWhite (list_ascii_of_string s) in
  let '(neg, cs1) :=
    match cs with
    | "-"%char :: r => (true, r)
    | "+"%char :: r => (false, r)
    | _ => (false, cs)
    end in
  let '(radix, cs2) :=
    match cs1 with
    | "0"%char :: "x"%char :: r => (16, r)
    | "0"%char :: "X"%char :: r => (16, r)
    | _ => (10, cs1)
    end in
  match digitsPrefix radix cs2 None with
  | Some v => Int (if neg then - v else v)
  | None => NaN
  end.

(** *** The email pattern [/^[^\s@]+@[^\s@]+\.[^\s@]+$/] *)

(** No white-space character starts at any position of [cs]. *)
Fixpoint noWhite (cs : list ascii) : bool :=
  match cs with
  | [] => true
  | _ :: rest =>
      match whiteLength cs with
      | O => noWhite rest
      | S _ => false
      end
  end.

Definition notAt (c : ascii) : bool := negb (Ascii.eqb c "@"%char).

(** The part after the [@]: characters outside [\s@] with a dot that is
    neither the first nor the last character. *)
Fixpoint dotInside (cs : list ascii) : bool :=
  match cs with
  | _ :: "."%char :: _ :: _ => true
  | _ :: cs' => dotInside cs'
  | [] => false
  end.

Definition domainOk (cs : list ascii) : bool :=
  forallb notAt cs && noWhite cs && dotInside cs.

Fixpoint localThenDomain (seen : bool) (cs : list ascii) : bool :=
  match cs with
  | [] => false
  | c :: cs' =>
      if Ascii.eqb c "@"%char then seen && domainOk cs'
      else
        match whiteLength cs with
        | O => localThenDomain true cs'
        | S _ => false
        end
  end.

Definition emailRegex_test (s : string) : bool :=
  localThenDomain false (list_ascii_of_string s).

(** ** The world outside the script *)

(** What the script keeps in the key-value store: the rate record
    [{requests: [...]}] under [rate_limit:<ip>] and the cache entry
    [{data, timestamp}] under [cache:<name>].  Cached payloads are the
    string sequences the fetchers produce. *)
Inductive kvValue : Type :=
  | RateRec (requests : list Z)
  | CacheRec (data : list string) (timestamp : Z).

(** A stored value with the instant (epoch milliseconds) at which the store
    drops it. *)
Record kvEntry : Type := mkEntry {
  kvVal : kvValue;
  kvExpires : Z;
}.

(** A JSON object whose fields are arrays of strings, such as
    [{emails: [...]}] and [{urls: [...]}]. *)
Definition listDoc : Type := list (string * list string).

(** What [atob(data.content)] gives on a contents envelope, with what
    [JSON.parse] gives on the decoded text ([None]: it throws). *)
Inductive envelope : Type :=
  | B64Invalid
  | B64Text (decoded : string) (parsed : option listDoc).

(** What [response.json()] resolves to ([JsonInvalid]: it rejects). *)
Inductive jsonBody : Type :=
  | JsonInvalid
  | JsonContents (content : envelope)
  | JsonDoc (doc : listDoc).

(** A response of the global [fetch], with what [response.text()] and
    [response.json()] resolve to on its body. *)
Record FetchResponse : Type := mkFetchResponse {
  resp_ok : bool;
  resp_status : Z;
  resp_text : string;
  resp_json : jsonBody;
}.

(** The reply to an HTTP GET: the request fails, or a response arrives. *)
Inductive httpReply : Type :=
  | NetworkError
  | Reply (response : FetchResponse).

(** The reply of the bot-verification endpoint. *)
Inductive verifyReply : Type :=
  | VerifyUnreachable
  | VerifyGarbled
  | VerifyResult (success : bool).

(** A number [r] drawn by [Math.random()], of which the script only uses
    [Math.floor(r * n)] for the length [n] of a non-empty pool.  The product
    is one of floating-point numbers; since [0 <= r < 1] its floor is an
    index below [n], and that is all a draw is taken to determine. *)
Record draw : Type := mkDraw {
  floorTimes : nat -> nat;                   (* Math.floor(r * n) *)
  floorTimes_lt : forall n, (0 < n)%nat -> (floorTimes n < n)%nat;
}.

(** External calls, in the order the script performs them. *)
Inductive event : Type :=
  | KvGet (key : string)
  | KvPut (key : string) (value : kvValue) (expirationTtl : num)
  | HttpGet (url : string) (authorization : option string)
  | SiteVerify (token ip : string)
  | MathRandom.

Record World : Type := mkWorld {
  clock : Z;                                 (* Date.now(), milliseconds *)
  kv : gmap string kvEntry;                  (* env.RATE_LIMIT_KV *)
  kvFaults : list bool;                      (* does the next store call fail? *)
  remote : string -> option string -> httpReply;
  siteverify : string -> string -> verifyReply;
  randoms : list draw;                       (* draws of Math.random() *)
  trace : list event;
}.

Definition setKv (m : gmap string kvEntry) (w : World) : World :=
  mkWorld (clock w) m (kvFaults w) (remote w) (siteverify w) (randoms w) (trace w).

Definition setFaults (f : list bool) (w : World) : World :=
  mkWorld (clock w) (kv w) f (remote w) (siteverify w) (randoms w) (trace w).

Definition setRandoms (r : list draw) (w : World) : World :=
  mkWorld (clock w) (kv w) (kvFaults w) (remote w) (siteverify w) r (trace w).

Definition setClock (t : Z) (w : World) : World :=
  mkWorld t (kv w) (kvFaults w) (remote w) (siteverify w) (randoms w) (trace w).

Definition log (e : event) (w : World) : World :=
  mkWorld (clock w) (kv w) (kvFaults w) (remote w) (siteverify w) (randoms w)
          (trace w ++ [e])%list.

(** ** The monad of one handler invocation *)

Inductive exn : Type :=
  | KvError
  | FetchError
  | SyntaxError
  | TypeError.

Inductive outcome (A : Type) : Type :=
  | Val (a : A)
  | Exn (e : exn).

Arguments Val {A} a.
Arguments Exn {A} e.

Definition M (A : Type) : Type := World -> outcome A * World.

Definition ret {A : Type} (a : A) : M A := fun w => (Val a, w).

Definition throw {A : Type} (e : exn) : M A := fun w => (Exn e, w).

Definition bind {A B : Type} (c : M A) (k : A -> M B) : M B :=
  fun w =>
    match c w with
    | (Val a, w') => k a w'
    | (Exn e, w') => (Exn e, w')
    end.

(** [try { c } catch (error) { h }]: the effects of [c] up to the throw
    stay. *)
Definition tryCatch {A : Type} (c : M A) (h : exn -> M A) : M A :=
  fun w =>
    match c w with
    | (Val a, w') => (Val a, w')
    | (Exn e, w') => h e w'
    end.

Notation "'let*' x ':=' c 'in' k" := (bind c (fun x => k))
  (at level 10, x name, c at level 200, k at level 200).

(** ** The key-value store *)

Definition popFault (w : World) : bool * World :=
  match kvFaults w with
  | [] => (false, w)
  | b :: r => (b, setFaults r w)
  end.

(** The value a successful read of [key] returns now. *)
Definition kvLive (w : World) (key : string) : option kvValue :=
  match kv w !! key with
  | Some e => if clock w <? kvExpires e then Some (kvVal e) else None
  | None => None
  end.

(** [env.RATE_LIMIT_KV.get(key, { type: 'json' })] *)
Definition kvGet (key : string) : M (option kvValue) :=
  fun w =>
    let '(fault, w1) := popFault (log (KvGet key) w) in
    if fault then (Exn KvError, w1) else (Val (kvLive w1 key), w1).

(** [env.RATE_LIMIT_KV.put(key, JSON.stringify(value), { expirationTtl })]:
    the store refuses a time-to-live that is not a number of at least 60
    seconds. *)
Definition kvPut (key : string) (v : kvValue) (expirationTtl : num) : M unit :=
  fun w =>
    let '(fault, w1) := popFault (log (KvPut key v expirationTtl) w) in
    if fault then (Exn KvError, w1)
    else match expirationTtl with
         | Int t =>
             if 60 <=? t
             then (Val tt, setKv (<[key := mkEntry v (clock w1 + t * 1000)]> (kv w1)) w1)
             else (Exn KvError, w1)
         | NaN => (Exn KvError, w1)
         end.

(** [Date.now()] *)
Definition dateNow : M Z := fun w => (Val (clock w), w).

(** ** Requests, configuration and responses *)

(** The honeypot field of the posted object: the handler tests it before
    every other field and calls [trim] on it when it is truthy, so its type
    matters.  It is [undefined], a string, or a value of another type (null,
    a boolean, a number, an array, an object), which has a truthiness and no
    [trim] method. *)
Inductive fieldValue : Type :=
  | Undefined
  | Text (s : string)
  | NotText (truthy : bool).

(** The object [request.json()] resolves to, as the destructuring reads it;
    a body that is a number, a string or an array has none of the three
    fields.  The email and the token are modelled where they are strings or
    undefined, as the page posts them. *)
Record JsonObject : Type := mkJsonObject {
  jsonEmail : option string;
  jsonTurnstileToken : option string;
  jsonHoneypotField : fieldValue;
}.

Record Request : Type := mkRequest {
  method : string;
  pathname : string;                 (* new URL(request.url).pathname *)
  cfConnectingIP : option string;    (* headers.get('CF-Connecting-IP') *)
  xForwardedFor : option string;     (* headers.get('X-Forwarded-For') *)
  json : option JsonObject;          (* request.json(); None: it rejects,
                                        or gives null, which the
                                        destructuring raises on *)
}.

(** The three fields the validator destructures, each a string or
    undefined. *)
Record ValidationBody : Type := mkBody {
  email : option string;
  turnstileToken : option string;
  honeypotField : option string;
}.

(** The posted form, when the handler gets to read one: [None] when
    [request.json()] rejects and when the honeypot is a truthy value that is
    not a string, on which [honeypotField.trim()] raises.  A falsy honeypot
    of any type is skipped like an undefined one. *)
Definition requestJson (request : Request) : option ValidationBody :=
  match json request with
  | Some b =>
      match jsonHoneypotField b with
      | Undefined => Some (mkBody (jsonEmail b) (jsonTurnstileToken b) None)
      | Text s => Some (mkBody (jsonEmail b) (jsonTurnstileToken b) (Some s))
      | NotText false => Some (mkBody (jsonEmail b) (jsonTurnstileToken b) None)
      | NotText true => None
      end
  | None => None
  end.

Record Env : Type := mkEnv {
  RATE_LIMIT_MAX_REQUESTS : option string;
  RATE_LIMIT_WINDOW : option string;
  CACHE_TTL : option string;
  GITHUB_API_TOKEN : option string;
  GITHUB_REPO_OWNER : option string;
  GITHUB_REPO_NAME : option string;
  GITHUB_BRANCH : option string;
}.

Definition clientIPOf (request : Request) : string :=
  match cfConnectingIP request with
  | Some s => if String.eqb s EmptyString then orElse (xForwardedFor request) "unknown" else s
  | None => orElse (xForwardedFor request) "unknown"
  end.

(** ** Rate limiter *)

Record RateResult : Type := mkRate {
  allowed : bool;
  remaining : num;
}.

Definition rateKey (request : Request) : string :=
  "rate_limit:" +:+ clientIPOf request.

Definition lengthZ {A : Type} (l : list A) : Z := Z.of_nat (length l).

Definition checkRateLimit (request : Request) (env : Env) : M RateResult :=
  let maxRequests := parseInt (orElse (RATE_LIMIT_MAX_REQUESTS env) "10") in
  let windowSeconds := parseInt (orElse (RATE_LIMIT_WINDOW env) "60") in
  let* ms := dateNow in
  let now := ms / 1000 in
  let windowStart := num_sub (Int now) windowSeconds in
  let key := rateKey request in
  tryCatch
    (let* currentData := kvGet key in
     let* requests :=
       match currentData with
       | Some (RateRec rs) =>
           ret (List.filter (fun timestamp => num_gt (Int timestamp) windowStart) rs)
       | Some (CacheRec _ _) => throw TypeError
       | None => ret []
       end in
     if num_ge (Int (lengthZ requests)) maxRequests
     then ret (mkRate false (Int 0))
     else
       let requests' := (requests ++ [now])%list in
       let* _ := kvPut key (RateRec requests') (num_add windowSeconds (Int 60)) in
       ret (mkRate true (num_sub maxRequests (Int (lengthZ requests')))))
    (fun _ => ret (mkRate true (Int 1))).

(** ** Cache layer *)

Definition cacheKeyOf (key : string) : string := "cache:" +:+ key.

Definition getCachedData (key : string) (env : Env) : M (option (list string)) :=
  tryCatch
    (let* cached := kvGet (cacheKeyOf key) in
     match cached with
     | Some (CacheRec data timestamp) =>
         if timestamp =? 0 then ret None
         else
           let ttl := parseInt (orElse (CACHE_TTL env) "300") in
           let* now := dateNow in
           if num_lt (Int (now - timestamp)) (num_mul ttl (Int 1000))
           then ret (Some data)
           else ret None
     | Some (RateRec _) => ret None
     | None => ret None
     end)
    (fun _ => ret None).

Definition setCachedData (key : string) (data : list string) (env : Env) : M unit :=
  tryCatch
    (let ttl := parseInt (orElse (CACHE_TTL env) "300") in
     let* now := dateNow in
     kvPut (cacheKeyOf key) (CacheRec data now) (num_add ttl (Int 60)))
    (fun _ => ret tt).

(** ** Remote document fetcher *)

(** The global [fetch(url, { headers })]; it rejects on a network error. *)
Definition globalFetch (url : string) (authorization : option string) : M FetchResponse :=
  fun w =>
    let w1 := log (HttpGet url authorization) w in
    match remote w1 url authorization with
    | NetworkError => (Exn FetchError, w1)
    | Reply response => (Val response, w1)
    end.

Definition responseJson (response : FetchResponse) : M jsonBody :=
  match resp_json response with
  | JsonInvalid => throw SyntaxError
  | j => ret j
  end.

(** [atob(data.content)]: a body without a [content] field gives
    [atob(undefined)], which throws. *)
Definition atobContent (data : jsonBody) : M envelope :=
  match data with
  | JsonContents (B64Text decoded parsed) => ret (B64Text decoded parsed)
  | _ => throw TypeError
  end.

Definition decodedText (content : envelope) : string :=
  match content with B64Text decoded _ => decoded | B64Invalid => EmptyString end.

(** [JSON.parse(content)] *)
Definition JSON_parse (content : envelope) : M listDoc :=
  match content with
  | B64Text _ (Some doc) => ret doc
  | _ => throw SyntaxError
  end.

(** [jsonData.<name> || []] *)
Fixpoint field (name : string) (doc : listDoc) : list string :=
  match doc with
  | (k, v) :: rest => if String.eqb k name then v else field name rest
  | [] => []
  end.

(** The document itself, as the second method reads it from
    [response.json()]; a contents envelope has none of the fields. *)
Definition docOf (data : jsonBody) : listDoc :=
  match data with JsonDoc doc => doc | _ => [] end.

Definition authorizationOf (env : Env) : option string :=
  if truthy (GITHUB_API_TOKEN env)
  then Some ("token " +:+ interp (GITHUB_API_TOKEN env))
  else None.

Definition apiUrl (env : Env) (file : string) : string :=
  "https://api.github.com/repos/" +:+ interp (GITHUB_REPO_OWNER env) +:+ "/"
    +:+ interp (GITHUB_REPO_NAME env) +:+ "/contents/data/" +:+ file
    +:+ "?ref=" +:+ interp (GITHUB_BRANCH env).

Definition rawUrl (env : Env) (file : string) : string :=
  "https://raw.githubusercontent.com/" +:+ interp (GITHUB_REPO_OWNER env) +:+ "/"
    +:+ interp (GITHUB_REPO_NAME env) +:+ "/" +:+ interp (GITHUB_BRANCH env)
    +:+ "/data/" +:+ file.

Definition isEmpty {A : Type} (l : list A) : bool :=
  match l with [] => true | _ => false end.

Definition nonBlank (s : string) : bool := negb (String.eqb (trim s) EmptyString).

(** *** Deny-list *)

Definition blacklistMethod1 (env : Env) (blacklist : list string) : M (list string) :=
  tryCatch
    (let* response := globalFetch (apiUrl env "blacklist.txt") (authorizationOf env) in
     if resp_ok response then
       let* data := responseJson response in
       let* content := atobContent data in
       ret (List.filter nonBlank (splitLines (decodedText content)))
     else ret blacklist)
    (fun _ => ret blacklist).

Definition blacklistMethod2 (env : Env) (blacklist : list string) : M (list string) :=
  tryCatch
    (let* response := globalFetch (rawUrl env "blacklist.txt") None in
     if resp_ok response then
       ret (List.filter nonBlank (splitLines (resp_text response)))
     else ret blacklist)
    (fun _ => ret blacklist).

Definition getBlacklist (env : Env) : M (list string) :=
  tryCatch
    (let* cached := getCachedData "blacklist" env in
     match cached with
     | Some c => ret c
     | None =>
         let* blacklist := blacklistMethod1 env [] in
         let* blacklist :=
           if isEmpty blacklist then blacklistMethod2 env blacklist
           else ret blacklist in
         let* _ :=
           if negb (isEmpty blacklist) then setCachedData "blacklist" blacklist env
           else ret tt in
         ret blacklist
     end)
    (fun _ => ret []).

(** *** Allow-list *)

Definition whitelistMethod1 {engine : Engine}
    (env : Env) (emails : list string) : M (list string) :=
  tryCatch
    (let* response := globalFetch (apiUrl env "list.json") (authorizationOf env) in
     if resp_ok response then
       let* data := responseJson response in
       let* content := atobContent data in
       let* jsonData := JSON_parse content in
       ret (List.map toLowerCase (field "emails" jsonData))
     else ret emails)
    (fun _ => ret emails).

Definition whitelistMethod2 {engine : Engine}
    (env : Env) (emails : list string) : M (list string) :=
  tryCatch
    (let* response := globalFetch (rawUrl env "list.json") None in
     if resp_ok response then
       let* jsonData := responseJson response in
       ret (List.map toLowerCase (field "emails" (docOf jsonData)))
     else ret emails)
    (fun _ => ret emails).

Definition whitelistMethod3 {engine : Engine}
    (env : Env) (emails : list string) : M (list string) :=
  tryCatch
    (let* response := globalFetch (rawUrl env "emails.txt") None in
     if resp_ok response then
       ret (List.map toLowerCase
              (List.filter (fun email => negb (String.eqb email EmptyString) && hasChar "@" email)
                 (List.map trim (splitLines (resp_text response)))))
     else ret emails)
    (fun _ => ret emails).

Definition getWhitelistSet {engine : Engine} (env : Env) : M (gset string) :=
  tryCatch
    (let* cached := getCachedData "whitelist_set" env in
     match cached with
     | Some c => ret (list_to_set c)
     | None =>
         let* emails := whitelistMethod1 env [] in
         let* emails :=
           if isEmpty emails then whitelistMethod2 env emails else ret emails in
         let* emails :=
           if isEmpty emails then whitelistMethod3 env emails else ret emails in
         let whitelistSet : gset string := list_to_set emails in
         let* _ :=
           if negb (isEmpty emails) then setCachedData "whitelist_set" emails env
           else ret tt in
         ret whitelistSet
     end)
    (fun _ => ret ∅).

(** *** Redirect pool *)

(** The draw [r = 0]. *)
Definition zeroDraw : draw :=
  mkDraw (fun _ => 0%nat) (fun n Hn => Hn).

(** [Math.random()]: the next draw of the world, and [zeroDraw] when none
    is left. *)
Definition mathRandom : M draw :=
  fun w =>
    let w1 := log MathRandom w in
    match randoms w1 with
    | r :: rs => (Val r, setRandoms rs w1)
    | [] => (Val zeroDraw, w1)
    end.

Definition pickRandom (urls : list string) : M (option string) :=
  if isEmpty urls then ret None
  else
    let* r := mathRandom in
    let randomIndex := floorTimes r (length urls) in
    ret (urls !! randomIndex).

Definition urlsMethod1 (env : Env) (urls : list string) : M (list string) :=
  tryCatch
    (let* response := globalFetch (apiUrl env "url.json") (authorizationOf env) in
     if resp_ok response then
       let* data := responseJson response in
       let* content := atobContent data in
       let* jsonData := JSON_parse content in
       ret (field "urls" jsonData)
     else ret urls)
    (fun _ => ret urls).

Definition urlsMethod2 (env : Env) (urls : list string) : M (list string) :=
  tryCatch
    (let* response := globalFetch (rawUrl env "url.json") None in
     if resp_ok response then
       let* jsonData := responseJson response in
       ret (field "urls" (docOf jsonData))
     else ret urls)
    (fun _ => ret urls).

Definition urlsMethod3 (env : Env) (urls : list string) : M (list string) :=
  tryCatch
    (let* response := globalFetch (rawUrl env "urls.txt") None in
     if resp_ok response then
       ret (List.filter (fun url => negb (String.eqb url EmptyString) && startsWith "http" url)
              (List.map trim (splitLines (resp_text response))))
     else ret urls)
    (fun _ => ret urls).

Definition getRandomRedirectUrl (env : Env) : M (option string) :=
  tryCatch
    (let* cached := getCachedData "redirect_urls" env in
     match cached with
     | Some urls => pickRandom urls
     | None =>
         let* urls := urlsMethod1 env [] in
         let* urls := if isEmpty urls then urlsMethod2 env urls else ret urls in
         let* urls := if isEmpty urls then urlsMethod3 env urls else ret urls in
         let* _ :=
           if negb (isEmpty urls) then setCachedData "redirect_urls" urls env
           else ret tt in
         pickRandom urls
     end)
    (fun _ => ret None).

(** ** Responses *)

Inductive jsval : Type :=
  | JBool (b : bool)
  | JString (s : string).

Definition hexDigit (n : N) : ascii :=
  if (n <? 10)%N then ascii_of_N (48 + n) else ascii_of_N (87 + n).

(** The escape [JSON.stringify] writes for one character of a string. *)
Definition quoteChar (c : ascii) : string :=
  let n := N_of_ascii c in
  if (n =? 34)%N then String "092" (String "034" EmptyString)
  else if (n =? 92)%N then "\\"
  else if (n =? 8)%N then "\b"
  else if (n =? 12)%N then "\f"
  else if (n =? 10)%N then "\n"
  else if (n =? 13)%N then "\r"
  else if (n =? 9)%N then "\t"
  else if (n <? 32)%N
       then "\u00" +:+ String (hexDigit (n / 16)) (String (hexDigit (n mod 16)) EmptyString)
  else String c EmptyString.

Fixpoint quoteChars (s : string) : string :=
  match s with
  | EmptyString => EmptyString
  | String c s' => quoteChar c +:+ quoteChars s'
  end.

Definition quote (s : string) : string :=
  String "034" (quoteChars s +:+ String "034" EmptyString).

Definition stringifyValue (v : jsval) : string :=
  match v with
  | JBool true => "true"
  | JBool false => "false"
  | JString s => quote s
  end.

Fixpoint stringifyFields (fields : list (string * jsval)) : string :=
  match fields with
  | [] => EmptyString
  | [(k, v)] => quote k +:+ ":" +:+ stringifyValue v
  | (k, v) :: rest => quote k +:+ ":" +:+ stringifyValue v +:+ "," +:+ stringifyFields rest
  end.

(** [JSON.stringify] of an object literal with boolean and string fields. *)
Definition JSON_stringify (fields : list (string * jsval)) : string :=
  "{" +:+ stringifyFields fields +:+ "}".

Record Response : Type := mkResponse {
  body : option string;
  status : Z;
  headers : list (string * string);
}.

Definition jsonHeaders : list (string * string) :=
  [("Content-Type", "application/json")].

(** [new Response(JSON.stringify({ success: false, message }), { status, headers })] *)
Definition failure (message : string) (status : Z) : Response :=
  mkResponse
    (Some (JSON_stringify [("success", JBool false); ("message", JString message)]))
    status jsonHeaders.

Definition success (finalUrl : string) : Response :=
  mkResponse
    (Some (JSON_stringify [("success", JBool true); ("redirectUrl", JString finalUrl)]))
    200 jsonHeaders.

(** ** Access validator *)

(** The POST to the verification endpoint followed by [response.json()]. *)
Definition postSiteVerify (token clientIP : string) : M bool :=
  fun w =>
    let w1 := log (SiteVerify token clientIP) w in
    match siteverify w1 token clientIP with
    | VerifyUnreachable => (Exn FetchError, w1)
    | VerifyGarbled => (Exn SyntaxError, w1)
    | VerifyResult success => (Val success, w1)
    end.

Definition verifyTurnstile (token : option string) (clientIP : string) : M bool :=
  tryCatch
    (if negb (truthy token) then ret false
     else postSiteVerify (interp token) clientIP)
    (fun _ => ret false).

Definition handleValidation {engine : Engine}
    (request : Request) (env : Env) : M Response :=
  tryCatch
    (if negb (String.eqb (method request) "POST")
     then ret (mkResponse (Some "Method Not Allowed") 405 [])
     else
       let clientIP := clientIPOf request in
       let* body :=
         match json request with
         | Some b => ret b
         | None => throw SyntaxError
         end in
       let email := jsonEmail body in
       let turnstileToken := jsonTurnstileToken body in
       let honeypotField := jsonHoneypotField body in
       (* honeypotField && honeypotField.trim() !== '' *)
       let* honeypotSet :=
         match honeypotField with
         | Undefined => ret false
         | Text s => ret (negb (String.eqb s EmptyString) && nonBlank s)
         | NotText false => ret false
         | NotText true => throw TypeError
         end in
       if honeypotSet
       then ret (failure "Access denied" 403)
       else if negb (truthy email) || negb (truthy turnstileToken)
       then ret (failure "Missing required fields" 400)
       else if negb (emailRegex_test (interp email))
       then ret (failure "Invalid email format" 400)
       else
         let* turnstileValid := verifyTurnstile turnstileToken clientIP in
         if negb turnstileValid
         then ret (failure "Verification failed. Please complete the challenge and try again." 400)
         else
           let* blacklist := getBlacklist env in
           if includes blacklist clientIP
           then ret (failure "Access denied" 403)
           else
             let* whitelistSet := getWhitelistSet env in
             let emailToCheck := toLowerCase (interp email) in
             let isWhitelisted := bool_decide (emailToCheck ∈ whitelistSet) in
             if negb isWhitelisted
             then ret (failure "Sorry, this email isn't associated with this secure link" 403)
             else
               let* redirectUrl := getRandomRedirectUrl env in
               if negb (truthy redirectUrl)
               then ret (failure "No redirect URLs available" 500)
               else
                 let finalUrl := interp redirectUrl +:+ interp email in
                 ret (success finalUrl))
    (fun _ => ret (failure "Internal server error" 500)).

(** ** Static assets and routing *)

(** The table of static assets.  The markup, style sheet and client script
    are served verbatim; each is abridged here to its first line. *)
Definition files (filename : string) : option string :=
  if String.eqb filename "index.html" then Some "<!DOCTYPE html>"
  else if String.eqb filename "styles.css" then Some "/* Reset and base styles */"
  else if String.eqb filename "script.js" then Some "// Main application logic"
  else None.

Definition endsWith (suffix s : string) : bool :=
  startsWith (String.rev suffix) (String.rev s).

Definition serveStaticFile (filename : string) : M Response :=
  let content := files filename in
  if negb (truthy content)
  then ret (mkResponse (Some "File not found") 404 [])
  else
    let contentType :=
      if endsWith ".html" filename then "text/html"
      else if endsWith ".css" filename then "text/css"
      else if endsWith ".js" filename then "application/javascript"
      else "text/plain" in
    ret (mkResponse content 200
           [("Content-Type", contentType); ("Cache-Control", "public, max-age=3600")]).

Definition corsHeaders : list (string * string) :=
  [("Access-Control-Allow-Origin", "*");
   ("Access-Control-Allow-Methods", "POST, GET, OPTIONS");
   ("Access-Control-Allow-Headers", "Content-Type")].

Definition tooManyRequests : Response :=
  failure "Too many requests. Please try again later." 429.

(** The worker's [fetch(request, env, ctx)] handler. *)
Definition fetch {engine : Engine} (request : Request) (env : Env) : M Response :=
  let path := pathname request in
  if String.eqb (method request) "OPTIONS"
  then ret (mkResponse None 200 corsHeaders)
  else
    let* rateLimitResult := checkRateLimit request env in
    if negb (allowed rateLimitResult) then ret tooManyRequests
    else if String.eqb path "/" || String.eqb path "/index.html"
    then serveStaticFile "index.html"
    else if String.eqb path "/styles.css" then serveStaticFile "styles.css"
    else if String.eqb path "/script.js" then serveStaticFile "script.js"
    else if String.eqb path "/api/validate" then handleValidation request env
    else ret (mkResponse (Some "Not Found") 404 []).

(** ** Observations the statements use *)

(** The time stamps the limiter counts: those of the client's live record
    that are later than [windowStart]. *)
Definition inWindow (request : Request) (env : Env) (w : World) : list Z :=
  let windowSeconds := parseInt (orElse (RATE_LIMIT_WINDOW env) "60") in
  let windowStart := num_sub (Int (clock w / 1000)) windowSeconds in
  match kvLive w (rateKey request) with
  | Some (RateRec rs) =>
      List.filter (fun timestamp => num_gt (Int timestamp) windowStart) rs
  | _ => []
  end.

(** What a store call does to the fault schedule: it consumes the entry
    [b] at its head, and nothing, with [b = false], when the schedule is
    exhausted. *)
Definition consumes (b : bool) (w w1 : World) : Prop :=
  (kvFaults w = [] /\ kvFaults w1 = [] /\ b = false)
  \/ kvFaults w = b :: kvFaults w1.

(** Some store call made between [w] and [w'] failed: the part of the fault
    schedule consumed in between holds a failure. *)
Definition storeFailed (w w' : World) : Prop :=
  exists consumed : list bool,
    kvFaults w = (consumed ++ kvFaults w')%list /\ In true consumed.

(** The state reached while a window fills: the store is reachable and the
    client's record, if any, holds [rs] and outlives the second [hi]. *)
Definition recorded (request : Request) (hi : Z) (w : World) (rs : list Z) : Prop :=
  kvFaults w = []
  /\ ((rs = [] /\ kv w !! rateKey request = None)
      \/ exists e, kv w !! rateKey request = Some (mkEntry (RateRec rs) e)
                   /\ (hi + 1) * 1000 <= e).

Definition admittedOutcome (o : outcome RateResult) : Prop :=
  exists r, o = Val r /\ allowed r = true.

(** The limiter called once at each clock reading of [times], in order. *)
Fixpoint admitSeq (request : Request) (env : Env) (times : list Z) (w : World)
  : list (outcome RateResult) * World :=
  match times with
  | [] => ([], w)
  | t :: ts =>
      let '(r, w1) := checkRateLimit request env (setClock t w) in
      let '(rs, w2) := admitSeq request env ts w1 in
      (r :: rs, w2)
  end.

(** What each retrieval method reads off the reply to its request: the
    entries of the document as it is served, before the script normalises
    them, and nothing when the transport or the parse fails. *)
Definition apiList (name : string) (reply : httpReply) : list string :=
  match reply with
  | Reply r =>
      if resp_ok r then
        match resp_json r with
        | JsonContents (B64Text _ (Some doc)) => field name doc
        | _ => []
        end
      else []
  | NetworkError => []
  end.

Definition rawList (name : string) (reply : httpReply) : list string :=
  match reply with
  | Reply r =>
      if resp_ok r then
        match resp_json r with
        | JsonDoc doc => field name doc
        | _ => []
        end
      else []
  | NetworkError => []
  end.

Definition apiLines (reply : httpReply) : list string :=
  match reply with
  | Reply r =>
      if resp_ok r then
        match resp_json r with
        | JsonContents (B64Text decoded _) => splitLines decoded
        | _ => []
        end
      else []
  | NetworkError => []
  end.

Definition textLines (reply : httpReply) : list string :=
  match reply with
  | Reply r => if resp_ok r then splitLines (resp_text r) else []
  | NetworkError => []
  end.

(** Strategies tried in order from world [w]: the first one that yields a
    non-empty list gives the result [l] and the final world [w'], the ones
    after it are not run; when every one yields the empty list the result is
    empty. *)
Inductive firstNonEmpty :
  list (M (list string)) -> World -> list string -> World -> Prop :=
  | fne_none (w : World) : firstNonEmpty [] w [] w
  | fne_wins (m : M (list string)) (ms : list (M (list string)))
             (w w' : World) (l : list string) :
      m w = (Val l, w') -> l <> [] -> firstNonEmpty (m :: ms) w l w'
  | fne_next (m : M (list string)) (ms : list (M (list string)))
             (w w1 w' : World) (l : list string) :
      m w = (Val [], w1) -> firstNonEmpty ms w1 l w' ->
      firstNonEmpty (m :: ms) w l w'.

(** The addresses requested over HTTP, in order. *)
Fixpoint fetches (tr : list event) : list string :=
  match tr with
  | HttpGet url _ :: rest => url :: fetches rest
  | _ :: rest => fetches rest
  | [] => []
  end.

(** The first non-empty list of [ls], or the empty list. *)
Fixpoint firstNonEmptyOf (ls : list (list string)) : list string :=
  match ls with
  | [] => []
  | [] :: rest => firstNonEmptyOf rest
  | l :: _ => l
  end.

(** The allow-list as the remote store serves it to the fetcher: the
    entries of the first document, in the order of the methods, that has
    any. *)
Definition allowListDocument (env : Env) (w : World) : list string :=
  firstNonEmptyOf
    [apiList "emails" (remote w (apiUrl env "list.json") (authorizationOf env));
     rawList "emails" (remote w (rawUrl env "list.json") None);
     List.filter (fun email => negb (String.eqb email EmptyString) && hasChar "@" email)
       (List.map trim (textLines (remote w (rawUrl env "emails.txt") None)))].

(** The allow-list the validator consults in world [w]: the cached
    sequence when the cache answers with one, and the served document
    otherwise. *)
Definition consultedAllowList (env : Env) (w : World) : list string :=
  match fst (getCachedData "whitelist_set" env w) with
  | Val (Some cached) => cached
  | _ => allowListDocument env w
  end.

(** The submitted address is on the list [l] up to letter case. *)
Definition listedUpToCase {engine : Engine} (l : list string) (address : string) : Prop :=
  exists listed, In listed l /\ toLowerCase listed = toLowerCase address.

(** Every entry of the cached allow-list is its own lower-case form. *)
Definition allowCacheLowerCase {engine : Engine} (w : World) : Prop :=
  forall data timestamp expires,
    kv w !! cacheKeyOf "whitelist_set"
      = Some (mkEntry (CacheRec data timestamp) expires) ->
    Forall (fun x => toLowerCase x = x) data.

(** The worlds the worker runs in.  Its store starts empty and nothing but
    the worker writes it: between two calls anything may change except the
    store, and the calls are those of the limiter and of the validator, the
    two parts of [fetch] that touch the store. *)
Inductive reachable {engine : Engine} : World -> Prop :=
  | reach_start (w : World) :
      kv w = ∅ -> reachable w
  | reach_outside (w w' : World) :
      reachable w -> kv w' = kv w -> reachable w'
  | reach_limiter (request : Request) (env : Env) (w w' : World)
                  (o : outcome RateResult) :
      reachable w -> checkRateLimit request env w = (o, w') -> reachable w'
  | reach_validator (request : Request) (env : Env) (w w' : World)
                    (o : outcome Response) :
      reachable w -> handleValidation request env w = (o, w') -> reachable w'.

(** The redirect pool the validator draws from in world [w], and the world
    in which the draw happens: the cached sequence, or else what the cascade
    of the fetcher yields. *)
Inductive redirectPool (env : Env) (w : World) : list string -> World -> Prop :=
  | pool_cached (c : list string) (w0 : World) :
      getCachedData "redirect_urls" env w = (Val (Some c), w0) ->
      redirectPool env w c w0
  | pool_fetched (l : list string) (w0 w1 : World) :
      getCachedData "redirect_urls" env w = (Val None, w0) ->
      firstNonEmpty
        [urlsMethod1 env []; urlsMethod2 env []; urlsMethod3 env []] w0 l w1 ->
      redirectPool env w l
        (if isEmpty l then w1 else snd (setCachedData "redirect_urls" l env w1)).

(** The next value of [Math.random()]. *)
Definition nextDraw (w : World) : draw :=
  match randoms w with r :: _ => r | [] => zeroDraw end.

(** The honeypot test of the validator: the field is present and not blank. *)
Definition honeypotFilled (body : ValidationBody) : bool :=
  truthy (honeypotField body) && nonBlank (interp (honeypotField body)).

(** The input passes the presence and format checks of the validator. *)
Definition wellFormed (body : ValidationBody) : bool :=
  truthy (email body) && truthy (turnstileToken body)
  && emailRegex_test (interp (email body)).

Definition accessDenied : Response := failure "Access denied" 403.

Definition verificationFailed : Response :=
  failure "Verification failed. Please complete the challenge and try again." 400.

Definition notOnList : Response :=
  failure "Sorry, this email isn't associated with this secure link" 403.

Definition noRedirects : Response := failure "No redirect URLs available" 500.

(** Several events logged in order. *)
Fixpoint logAll (es : list event) (w : World) : World :=
  match es with
  | [] => w
  | e :: rest => logAll rest (log e w)
  end.

(** An HTTP request as the pair of its address and its [Authorization]
    header. *)
Definition httpGetOf (p : string * option string) : event :=
  HttpGet (fst p) (snd p).

(** A strategy that makes the one request [p] and never raises. *)
Definition requests (m : M (list string)) (p : string * option string) : Prop :=
  forall w, exists l, m w = (Val l, log (httpGetOf p) w).

(** The requests of each fetcher, in the order of its methods. *)
Definition blacklistPlan (env : Env) : list (string * option string) :=
  [(apiUrl env "blacklist.txt", authorizationOf env);
   (rawUrl env "blacklist.txt", None)].

Definition whitelistPlan (env : Env) : list (string * option string) :=
  [(apiUrl env "list.json", authorizationOf env);
   (rawUrl env "list.json", None);
   (rawUrl env "emails.txt", None)].

Definition urlsPlan (env : Env) : list (string * option string) :=
  [(apiUrl env "url.json", authorizationOf env);
   (rawUrl env "url.json", None);
   (rawUrl env "urls.txt", None)].

(** The external calls a fetcher of the document [name] may add to a trace:
    one read of the cache, a prefix of its plan, then at most one write of
    the cache. *)
Definition fetcherCalls (name : string) (plan : list (string * option string))
    (n : nat) (puts : list event) : list event :=
  (KvGet (cacheKeyOf name) :: List.map httpGetOf (take n plan) ++ puts)%list.

Definition atMostOnePut (name : string) (puts : list event) : Prop :=
  puts = [] \/ exists v ttl, puts = [KvPut (cacheKeyOf name) v ttl].

(** The status codes the validator answers with. *)
Definition validatorStatus (s : Z) : Prop :=
  s = 200 \/ s = 400 \/ s = 403 \/ s = 405 \/ s = 500.

(** ** Sample inputs *)

(** The sample inputs are ASCII text, on which an engine lower-cases the
    letters A to Z and leaves every other character as it is. *)
Definition lowerChar (c : ascii) : ascii :=
  let n := code c in
  if (65 <=? n) && (n <=? 90) then ascii_of_N (N_of_ascii c + 32) else c.

Fixpoint asciiLowerCase (s : string) : string :=
  match s with
  | EmptyString => EmptyString
  | String c s' => String (lowerChar c) (asciiLowerCase s')
  end.

#[export] Instance asciiEngine : Engine.
Proof.
  refine (mkEngine asciiLowerCase _).
  intros s. induction s as [| c s IH]; [reflexivity |].
  simpl. rewrite IH. f_equal.
  destruct c as [[] [] [] [] [] [] [] []]; vm_compute; reflexivity.
Defined.

Definition noReply : string -> option string -> httpReply :=
  fun _ _ => NetworkError.

Definition noVerdict : string -> string -> verifyReply :=
  fun _ _ => VerifyUnreachable.

Definition sampleEnv (maxRequests : string) : Env :=
  mkEnv (Some maxRequests) None None None (Some "owner") (Some "repo") (Some "main").

Definition sampleGet : Request :=
  mkRequest "GET" "/" (Some "203.0.113.7") None None.

(** A world at clock reading 1700000000000 with the given store contents and
    fault schedule, where nothing remote answers. *)
Definition sampleWorld (store : gmap string kvEntry) (faults : list bool) : World :=
  mkWorld 1700000000000 store faults noReply noVerdict [] [].

Definition busyStore : gmap string kvEntry :=
  {[ "rate_limit:203.0.113.7" := mkEntry (RateRec [1700000000]) 1700000120000 ]}.

(** A cached allow-list written 300 seconds before the sample clock reading,
    which the store keeps for another 60 seconds. *)
Definition staleStore : gmap string kvEntry :=
  {[ "cache:whitelist_set" :=
       mkEntry (CacheRec ["admin@co.com"] 1699999700000) 1700000060000 ]}.

Definition alwaysHuman : string -> string -> verifyReply :=
  fun _ _ => VerifyResult true.

Fixpoint lookupReply (url : string) (docs : list (string * httpReply)) : httpReply :=
  match docs with
  | [] => NetworkError
  | (u, reply) :: rest => if String.eqb u url then reply else lookupReply url rest
  end.

(** A remote store that serves the listed documents and is unreachable for
    every other address. *)
Definition serving (docs : list (string * httpReply)) : string -> option string -> httpReply :=
  fun url _ => lookupReply url docs.

Definition newline : string := String "010" EmptyString.

Definition dquote : string := String "034" EmptyString.

(** A plain-text document. *)
Definition okText (text : string) : httpReply :=
  Reply (mkFetchResponse true 200 text JsonInvalid).

Definition env0 : Env := sampleEnv "10".

(** A form posted from [ip] with the token [token] and the given
    honeypot. *)
Definition postWith (ip address : string) (honeypot : fieldValue) : Request :=
  mkRequest "POST" "/api/validate" (Some ip) None
            (Some (mkJsonObject (Some address) (Some "token") honeypot)).

Definition postFrom (ip address : string) (honeypot : option string) : Request :=
  postWith ip address (match honeypot with Some s => Text s | None => Undefined end).

(** A world whose store caches a deny-list and an allow-list, both written
    ten seconds before the sample clock reading. *)
Definition listsStore : gmap string kvEntry :=
  {[ "cache:blacklist" :=
       mkEntry (CacheRec ["203.0.113.7"] 1699999990000) 1700000350000;
     "cache:whitelist_set" :=
       mkEntry (CacheRec ["admin@co.com"] 1699999990000) 1700000350000 ]}.

Definition listsWorld (verdict : string -> string -> verifyReply) : World :=
  mkWorld 1700000000000 listsStore [] noReply verdict [] [].

(** A remote store where the first allow-list method is answered with a
    contents envelope that decodes to the empty object, the second is
    unreachable and the third serves a text file; the redirect list is a
    text file with one target. *)
Definition envelopeText : string :=
  "{" +:+ dquote +:+ "content" +:+ dquote +:+ ":" +:+ dquote +:+ "e30="
      +:+ dquote +:+ "}".

Definition emptyObjectEnvelope : httpReply :=
  Reply (mkFetchResponse true 200 envelopeText (JsonContents (B64Text "{}" (Some [])))).

Definition textDocs : list (string * httpReply) :=
  [(apiUrl env0 "list.json", emptyObjectEnvelope);
   (rawUrl env0 "emails.txt", okText ("User@Example.com" +:+ newline +:+ "admin@co.com"));
   (rawUrl env0 "urls.txt", okText "https://x/r?u=")].

Definition textWorld : World :=
  mkWorld 1700000000000 ∅ [] (serving textDocs) alwaysHuman [] [].

(** A remote store whose redirect list is the JSON document
    [{urls: [<empty string>]}] and whose allow-list is a text file. *)
Definition blankUrlText : string :=
  "{" +:+ dquote +:+ "urls" +:+ dquote +:+ ":[" +:+ dquote +:+ dquote +:+ "]}".

Definition blankUrlDocs : list (string * httpReply) :=
  [(rawUrl env0 "emails.txt", okText "admin@co.com");
   (rawUrl env0 "url.json",
    Reply (mkFetchResponse true 200 blankUrlText (JsonDoc [("urls", [EmptyString])])))].

Definition blankUrlWorld : World :=
  mkWorld 1700000000000 ∅ [] (serving blankUrlDocs) alwaysHuman [] [].

(** The worlds a sample request goes through up to the allow-list check. *)
Definition afterVerify (request : Request) (w : World) : World :=
  snd (verifyTurnstile (Some "token") (clientIPOf request) w).

Definition afterDenyList (request : Request) (w : World) : World :=
  snd (getBlacklist env0 (afterVerify request w)).

Definition afterAllowList (request : Request) (w : World) : World :=
  snd (getWhitelistSet env0 (afterDenyList request w)).

(** A remote store whose deny-list is a text file with one address. *)
Definition denyWorld : World :=
  mkWorld 1700000000000 ∅ []
          (serving [(rawUrl env0 "blacklist.txt", okText "198.51.100.9")])
          alwaysHuman [] [].

(** * Properties *)

(** ** Store primitives *)

Lemma popFault_log_nil (e : event) (w : World) :
  kvFaults w = [] -> popFault (log e w) = (false, log e w).
Proof. intros H. unfold popFault. simpl. rewrite H. reflexivity. Qed.

Lemma kvGet_reachable (key : string) (w : World) :
  kvFaults w = [] -> kvGet key w = (Val (kvLive w key), log (KvGet key) w).
Proof.
  intros H. unfold kvGet. rewrite popFault_log_nil by assumption. reflexivity.
Qed.

Lemma kvPut_reachable (key : string) (v : kvValue) (t : Z) (w : World) :
  kvFaults w = [] -> 60 <= t ->
  kvPut key v (Int t) w =
    (Val tt, setKv (<[key := mkEntry v (clock w + t * 1000)]> (kv w))
               (log (KvPut key v (Int t)) w)).
Proof.
  intros H Ht. unfold kvPut. rewrite popFault_log_nil by assumption.
  destruct (Z.leb_spec 60 t); [reflexivity | lia].
Qed.

Lemma popFault_inv (e : event) (w w1 : World) (b : bool) :
  popFault (log e w) = (b, w1) ->
  clock w1 = clock w /\ kv w1 = kv w /\ trace w1 = (trace w ++ [e])%list
  /\ randoms w1 = randoms w /\ consumes b w w1.
Proof.
  unfold popFault, consumes. simpl.
  destruct (kvFaults w) as [| b0 l] eqn:Hf; intros H; inversion H; subst; simpl.
  - rewrite Hf. intuition.
  - intuition.
Qed.

Lemma kvGet_inv (key : string) (w w1 : World) (o : outcome (option kvValue)) :
  kvGet key w = (o, w1) ->
  clock w1 = clock w /\ kv w1 = kv w
  /\ trace w1 = (trace w ++ [KvGet key])%list
  /\ ((o = Val (kvLive w key) /\ consumes false w w1)
      \/ (o = Exn KvError /\ consumes true w w1)).
Proof.
  unfold kvGet.
  destruct (popFault (log (KvGet key) w)) as [fault w0] eqn:Hpop.
  apply popFault_inv in Hpop. destruct Hpop as (Hc & Hk & Ht & _ & Hcons).
  destruct fault; intros H; inversion H; subst; repeat split; auto.
  left. split; [| assumption]. unfold kvLive. rewrite Hc, Hk. reflexivity.
Qed.

Lemma kvPut_inv (key : string) (v : kvValue) (ttl : num) (w w1 : World)
    (o : outcome unit) :
  kvPut key v ttl w = (o, w1) ->
  clock w1 = clock w
  /\ trace w1 = (trace w ++ [KvPut key v ttl])%list
  /\ ((exists t, ttl = Int t /\ 60 <= t /\ o = Val tt
                 /\ kv w1 = <[key := mkEntry v (clock w + t * 1000)]> (kv w)
                 /\ consumes false w w1)
      \/ (exists e b, o = Exn e /\ kv w1 = kv w /\ consumes b w w1)).
Proof.
  unfold kvPut.
  destruct (popFault (log (KvPut key v ttl) w)) as [fault w0] eqn:Hpop.
  apply popFault_inv in Hpop. destruct Hpop as (Hc & Hk & Ht & _ & Hcons).
  destruct fault.
  - intros H; inversion H; subst. repeat split; auto. right. eauto.
  - destruct ttl as [| t].
    + intros H; inversion H; subst. repeat split; auto. right. eauto.
    + destruct (Z.leb_spec 60 t) as [Hle | Hlt]; intros H; inversion H; subst; simpl.
      * repeat split; auto. left. exists t. rewrite Hc, Hk.
        repeat split; auto.
      * repeat split; auto. right. eauto.
Qed.

(** ** Rate limiter *)

(** The three ways one call of the limiter can go. *)
Lemma checkRateLimit_cases (request : Request) (env : Env) (w w' : World)
    (o : outcome RateResult) :
  checkRateLimit request env w = (o, w') ->
  let key := rateKey request in
  let maxRequests := parseInt (orElse (RATE_LIMIT_MAX_REQUESTS env) "10") in
  let windowSeconds := parseInt (orElse (RATE_LIMIT_WINDOW env) "60") in
  let requests := inWindow request env w in
  let requests' := (requests ++ [clock w / 1000])%list in
  (* rejected *)
  (o = Val (mkRate false (Int 0))
   /\ num_ge (Int (lengthZ requests)) maxRequests = true
   /\ kv w' = kv w /\ trace w' = (trace w ++ [KvGet key])%list
   /\ consumes false w w')
  (* admitted and recorded *)
  \/ (exists t w1,
        o = Val (mkRate true (num_sub maxRequests (Int (lengthZ requests'))))
        /\ num_ge (Int (lengthZ requests)) maxRequests = false
        /\ windowSeconds = Int t /\ 0 <= t
        /\ kv w' = <[key := mkEntry (RateRec requests')
                              (clock w + (t + 60) * 1000)]> (kv w)
        /\ trace w' = (trace w ++ [KvGet key;
                         KvPut key (RateRec requests') (Int (t + 60))])%list
        /\ consumes false w w1 /\ consumes false w1 w')
  (* failed open *)
  \/ (o = Val (mkRate true (Int 1)) /\ kv w' = kv w).
Proof.
  intros H key maxRequests windowSeconds requests requests'.
  unfold checkRateLimit, bind, tryCatch, dateNow in H.
  fold key maxRequests windowSeconds in H.
  destruct (kvGet key w) as [og w1] eqn:Hget.
  apply kvGet_inv in Hget. destruct Hget as (Hc & Hk & Ht & Hout).
  destruct Hout as [[-> Hcons] | [-> Hcons]].
  2:{ unfold ret in H. inversion H; subst. right. right. auto. }
  unfold requests', requests, inWindow. fold key windowSeconds.
  destruct (kvLive w key) as [[rs | d ts] |].
  - unfold ret at 1 in H.
    set (rq := List.filter _ rs) in *.
    destruct (num_ge (Int (lengthZ rq)) maxRequests) eqn:Hge.
    + unfold ret in H. inversion H; subst. left. auto.
    + destruct (kvPut key _ _ w1) as [op w2] eqn:Hput.
      apply kvPut_inv in Hput. destruct Hput as (Hc2 & Ht2 & Hp).
      destruct Hp as [(t & Htt & Hle & -> & Hk2 & Hcons2) | (e & b & -> & Hk2 & _)].
      * unfold ret in H. inversion H; subst. right. left.
        destruct windowSeconds as [| ws] eqn:Hws; [discriminate |].
        simpl in Htt. inversion Htt; subst t.
        exists ws, w1. rewrite Hk2, Ht2, Hc, Hk, Ht.
        rewrite <- app_assoc.
        repeat split; auto; lia.
      * unfold ret in H. inversion H; subst. right. right.
        split; [reflexivity | congruence].
  - unfold throw, ret in H. inversion H; subst. right. right. auto.
  - unfold ret at 1 in H.
    destruct (num_ge (Int (lengthZ (@nil Z))) maxRequests) eqn:Hge.
    + unfold ret in H. inversion H; subst. left. auto.
    + destruct (kvPut key _ _ w1) as [op w2] eqn:Hput.
      apply kvPut_inv in Hput. destruct Hput as (Hc2 & Ht2 & Hp).
      destruct Hp as [(t & Htt & Hle & -> & Hk2 & Hcons2) | (e & b & -> & Hk2 & _)].
      * unfold ret in H. inversion H; subst. right. left.
        destruct windowSeconds as [| ws] eqn:Hws; [discriminate |].
        simpl in Htt. inversion Htt; subst t.
        exists ws, w1. rewrite Hk2, Ht2, Hc, Hk, Ht.
        rewrite <- app_assoc.
        repeat split; auto; lia.
      * unfold ret in H. inversion H; subst. right. right.
        split; [reflexivity | congruence].
Qed.

Lemma consumed_one (b : bool) (l consumed : list bool) :
  b :: l = (consumed ++ l)%list -> consumed = [b].
Proof.
  intros H. change (b :: l) with ([b] ++ l)%list in H.
  apply app_inv_tail in H. auto.
Qed.

Lemma consumed_two (a b : bool) (l consumed : list bool) :
  a :: b :: l = (consumed ++ l)%list -> consumed = [a; b].
Proof.
  intros H. change (a :: b :: l) with ([a; b] ++ l)%list in H.
  apply app_inv_tail in H. auto.
Qed.

Lemma no_failure_between (w w1 w' : World) :
  consumes false w w1 -> consumes false w1 w' -> ~ storeFailed w w'.
Proof.
  unfold consumes, storeFailed. intros H1 H2 (c & Hc & Hin).
  destruct H1 as [(Ha & Hb & _) | Ha]; destruct H2 as [(Hd & He & _) | Hd].
  - rewrite Ha, He, app_nil_r in Hc. subst c. inversion Hin.
  - rewrite Hb in Hd. discriminate.
  - rewrite Ha, Hd, He in Hc. apply consumed_one in Hc. subst c.
    simpl in Hin. intuition discriminate.
  - rewrite Ha, Hd in Hc. apply consumed_two in Hc. subst c.
    simpl in Hin. intuition discriminate.
Qed.

Lemma no_failure_one (w w' : World) :
  consumes false w w' -> ~ storeFailed w w'.
Proof.
  unfold consumes, storeFailed. intros H1 (c & Hc & Hin).
  destruct H1 as [(Ha & Hb & _) | Ha].
  - rewrite Ha, Hb, app_nil_r in Hc. subst c. inversion Hin.
  - rewrite Ha in Hc. apply consumed_one in Hc. subst c.
    simpl in Hin. intuition discriminate.
Qed.

(** C3: a rejection writes nothing.  When the limiter answers
    [allowed = false], the answer is [{allowed: false, remaining: 0}], the
    store is the one it started from, the only external call made is the read
    of the client's record, and the count of in-window time stamps had
    reached the cap. *)
Theorem checkRateLimit_reject_no_write (request : Request) (env : Env)
    (w w' : World) (r : RateResult) :
  checkRateLimit request env w = (Val r, w') ->
  allowed r = false ->
  r = mkRate false (Int 0)
  /\ kv w' = kv w
  /\ trace w' = (trace w ++ [KvGet (rateKey request)])%list
  /\ num_ge (Int (lengthZ (inWindow request env w)))
            (parseInt (orElse (RATE_LIMIT_MAX_REQUESTS env) "10")) = true.
Proof.
  intros H Hrej. apply checkRateLimit_cases in H. simpl in H.
  destruct H as [(Ho & Hge & Hk & Ht & _) | [(t & w1 & Ho & _) | (Ho & _)]];
    inversion Ho; subst r; simpl in Hrej; try discriminate.
  auto.
Qed.

(** C4: the limiter fails open.  It always returns a result, never an
    exception; and when a store call made during the check fails, the result
    is [{allowed: true, remaining: 1}]. *)
Theorem checkRateLimit_fail_open (request : Request) (env : Env) (w : World) :
  (exists r w', checkRateLimit request env w = (Val r, w'))
  /\ (forall o w', checkRateLimit request env w = (o, w') ->
        storeFailed w w' -> o = Val (mkRate true (Int 1))).
Proof.
  split.
  - destruct (checkRateLimit request env w) as [o w'] eqn:H.
    apply checkRateLimit_cases in H. simpl in H.
    destruct H as [(Ho & _) | [(t & w1 & Ho & _) | (Ho & _)]]; subst o; eauto.
  - intros o w' H Hfail. apply checkRateLimit_cases in H. simpl in H.
    destruct H as [(Ho & _ & _ & _ & Hc)
                  | [(t & w1 & Ho & _ & _ & _ & _ & _ & Hc1 & Hc2) | (Ho & _)]].
    + exfalso. exact (no_failure_one _ _ Hc Hfail).
    + exfalso. exact (no_failure_between _ _ _ Hc1 Hc2 Hfail).
    + exact Ho.
Qed.

(** *** The sliding window *)

Section SlidingWindow.

Variables (request : Request) (env : Env) (m win : Z).
Hypothesis Hmax : parseInt (orElse (RATE_LIMIT_MAX_REQUESTS env) "10") = Int m.
Hypothesis Hwin : parseInt (orElse (RATE_LIMIT_WINDOW env) "60") = Int win.

Let key : string := rateKey request.

(** One call with the store reachable and the client's record well formed. *)
Lemma checkRateLimit_reachable (w : World) :
  kvFaults w = [] ->
  0 <= win ->
  (forall d ts, kvLive w key <> Some (CacheRec d ts)) ->
  let requests := inWindow request env w in
  let requests' := (requests ++ [clock w / 1000])%list in
  checkRateLimit request env w =
    if m <=? lengthZ requests
    then (Val (mkRate false (Int 0)), log (KvGet key) w)
    else (Val (mkRate true (Int (m - lengthZ requests'))),
          setKv (<[key := mkEntry (RateRec requests')
                            (clock w + (win + 60) * 1000)]> (kv w))
                (log (KvPut key (RateRec requests') (Int (win + 60)))
                     (log (KvGet key) w))).
Proof.
  intros Hf Hw Hrec requests requests'.
  unfold checkRateLimit, bind, tryCatch, dateNow.
  fold key. rewrite Hmax, Hwin.
  rewrite kvGet_reachable by assumption.
  assert (Hreq :
    match kvLive w key with
    | Some (RateRec rs) =>
        ret (List.filter
               (fun timestamp =>
                  num_gt (Int timestamp) (num_sub (Int (clock w / 1000)) (Int win))) rs)
    | Some (CacheRec _ _) => throw TypeError
    | None => ret []
    end (log (KvGet key) w) = (Val requests, log (KvGet key) w)).
  { unfold requests, inWindow. fold key. rewrite Hwin.
    specialize (Hrec) as Hrec'.
    destruct (kvLive w key) as [[rs | d ts] |]; try reflexivity.
    exfalso. exact (Hrec' d ts eq_refl). }
  rewrite Hreq. fold requests'. unfold num_ge.
  destruct (m <=? lengthZ requests); [reflexivity |].
  unfold num_add. rewrite kvPut_reachable by (simpl; auto; lia).
  reflexivity.
Qed.

Lemma filter_all {A : Type} (P : A -> bool) (l : list A) :
  Forall (fun x => P x = true) l -> List.filter P l = l.
Proof.
  induction 1 as [| x l Hx _ IH]; simpl; [reflexivity |].
  rewrite Hx, IH. reflexivity.
Qed.

Lemma filter_none {A : Type} (P : A -> bool) (l : list A) :
  Forall (fun x => P x = false) l -> List.filter P l = [].
Proof.
  induction 1 as [| x l Hx _ IH]; simpl; [reflexivity |].
  rewrite Hx, IH. reflexivity.
Qed.

Lemma inWindow_recorded (hi t : Z) (w : World) (rs : list Z) :
  recorded request hi w rs ->
  Forall (fun ts => hi - win < ts) rs ->
  hi - win < t / 1000 <= hi ->
  inWindow request env (setClock t w) = rs
  /\ forall d ts, kvLive (setClock t w) key <> Some (CacheRec d ts).
Proof.
  intros [Hf Hst] Hrs Ht. unfold inWindow, kvLive. fold key in Hst |- *.
  simpl. rewrite Hwin.
  destruct Hst as [[-> Hnone] | (e & Hsome & He)].
  - rewrite Hnone. split; [reflexivity | discriminate].
  - rewrite Hsome. simpl.
    assert (Hlt : t < e).
    { assert (t < (t / 1000 + 1) * 1000)
        by (pose proof (Z.mod_pos_bound t 1000 ltac:(lia));
            pose proof (Z.div_mod t 1000 ltac:(lia)); lia).
      nia. }
    destruct (Z.ltb_spec t e) as [_ | Hge]; [| lia].
    split; [| discriminate].
    apply filter_all. eapply Forall_impl; [exact Hrs |].
    intros ts Hts. simpl in *. apply Z.ltb_lt. lia.
Qed.

Lemma lengthZ_app {A : Type} (l1 l2 : list A) :
  lengthZ (l1 ++ l2)%list = lengthZ l1 + lengthZ l2.
Proof. unfold lengthZ. rewrite length_app. lia. Qed.

Lemma admit_recorded (hi t : Z) (w : World) (rs : list Z) :
  recorded request hi w rs ->
  Forall (fun ts => hi - win < ts) rs ->
  hi - win < t / 1000 <= hi ->
  lengthZ rs < m ->
  exists w',
    checkRateLimit request env (setClock t w)
      = (Val (mkRate true (Int (m - lengthZ rs - 1))), w')
    /\ recorded request hi w' (rs ++ [t / 1000])%list.
Proof.
  intros Hrec Hrs Ht Hlen.
  destruct (inWindow_recorded hi t w rs Hrec Hrs Ht) as [Hin Hno].
  destruct Hrec as [Hf _].
  rewrite checkRateLimit_reachable by (auto; lia).
  rewrite Hin. destruct (Z.leb_spec m (lengthZ rs)) as [Hle | _]; [lia |].
  eexists. split.
  - rewrite lengthZ_app. unfold lengthZ at 2. simpl length.
    replace (m - (lengthZ rs + Z.of_nat 1)) with (m - lengthZ rs - 1) by lia.
    reflexivity.
  - split; [exact Hf |]. right. simpl. eexists. split.
    + fold key. apply lookup_insert_eq.
    + assert (t / 1000 * 1000 <= t)
        by (pose proof (Z.mod_pos_bound t 1000 ltac:(lia));
            pose proof (Z.div_mod t 1000 ltac:(lia)); lia).
      nia.
Qed.

Lemma reject_recorded (hi t : Z) (w : World) (rs : list Z) :
  recorded request hi w rs ->
  Forall (fun ts => hi - win < ts) rs ->
  hi - win < t / 1000 <= hi ->
  m <= lengthZ rs ->
  exists w',
    checkRateLimit request env (setClock t w) = (Val (mkRate false (Int 0)), w')
    /\ recorded request hi w' rs.
Proof.
  intros Hrec Hrs Ht Hlen.
  destruct (inWindow_recorded hi t w rs Hrec Hrs Ht) as [Hin Hno].
  pose proof Hrec as [Hf _].
  rewrite checkRateLimit_reachable by (auto; lia).
  rewrite Hin. destruct (Z.leb_spec m (lengthZ rs)) as [_ | Hlt]; [| lia].
  eexists. split; [reflexivity |]. exact Hrec.
Qed.

Lemma admit_after (hi t : Z) (w : World) (rs : list Z) :
  recorded request hi w rs ->
  Forall (fun ts => ts + win <= t / 1000) rs ->
  0 <= win -> 0 < m ->
  exists r w',
    checkRateLimit request env (setClock t w) = (Val r, w')
    /\ allowed r = true.
Proof.
  intros [Hf Hst] Hrs Hw Hm.
  assert (Hin : inWindow request env (setClock t w) = []
                /\ forall d ts, kvLive (setClock t w) key <> Some (CacheRec d ts)).
  { unfold inWindow, kvLive. fold key in Hst |- *. simpl. rewrite Hwin.
    destruct Hst as [[-> Hnone] | (e & Hsome & He)].
    - rewrite Hnone. split; [reflexivity | discriminate].
    - rewrite Hsome. simpl. destruct (t <? e); [| split; [reflexivity | discriminate]].
      split; [| discriminate].
      apply filter_none. eapply Forall_impl; [exact Hrs |].
      intros ts Hts. simpl in *. apply Z.ltb_ge. lia. }
  destruct Hin as [Hin Hno].
  rewrite checkRateLimit_reachable by (auto; lia).
  rewrite Hin. change (lengthZ (@nil Z)) with 0.
  destruct (Z.leb_spec m 0) as [Hle | _]; [lia |].
  eexists _, _. split; reflexivity.
Qed.

Lemma admitSeq_app (l1 l2 : list Z) (w : World) :
  admitSeq request env (l1 ++ l2)%list w =
    let '(r1, w1) := admitSeq request env l1 w in
    let '(r2, w2) := admitSeq request env l2 w1 in
    ((r1 ++ r2)%list, w2).
Proof.
  revert w. induction l1 as [| t l1 IH]; intros w; simpl.
  - destruct (admitSeq request env l2 w); reflexivity.
  - destruct (checkRateLimit request env (setClock t w)) as [r w1].
    rewrite IH. destruct (admitSeq request env l1 w1) as [r1 w2].
    destruct (admitSeq request env l2 w2); reflexivity.
Qed.

(** While the cap is not reached every call in the window is admitted and
    recorded. *)
Lemma admitSeq_fill (hi : Z) (times : list Z) :
  forall (w : World) (rs : list Z),
    recorded request hi w rs ->
    Forall (fun ts => hi - win < ts) rs ->
    Forall (fun t => hi - win < t / 1000 <= hi) times ->
    lengthZ rs + lengthZ times <= m ->
    exists results w',
      admitSeq request env times w = (results, w')
      /\ length results = length times
      /\ Forall admittedOutcome results
      /\ recorded request hi w' (rs ++ List.map (fun t => t / 1000) times)%list.
Proof.
  induction times as [| t times IH]; intros w rs Hrec Hrs Hts Hlen; simpl.
  - exists [], w. rewrite app_nil_r. auto.
  - inversion Hts as [| ? ? Ht Hts']; subst.
    unfold lengthZ in Hlen. simpl length in Hlen.
    destruct (admit_recorded hi t w rs Hrec Hrs Ht) as (w1 & Hcall & Hrec1);
      [unfold lengthZ; lia |].
    rewrite Hcall.
    destruct (IH w1 (rs ++ [t / 1000])%list Hrec1) as (results & w' & Hseq & Hl & Hall & Hrec');
      auto.
    + apply Forall_app. split; [exact Hrs |]. constructor; [lia | constructor].
    + rewrite lengthZ_app. unfold lengthZ. simpl. lia.
    + rewrite Hseq. eexists _, _. split; [reflexivity |].
      split; [simpl; congruence |]. split.
      * constructor; [| exact Hall]. eexists. split; reflexivity.
      * rewrite <- app_assoc in Hrec'. exact Hrec'.
Qed.

(** C2: the sliding window.  With the store reachable, a cap of [m >= 1]
    requests and a client without a record, [m] calls whose time stamps lie
    in one window of [win] seconds are all admitted, a further call in that
    window is rejected, and a call made once [win] seconds have passed
    since every one of those time stamps is admitted again. *)
Theorem sliding_window_cap (hi t_over t_after : Z) (times : list Z) (w : World) :
  0 < m ->
  kvFaults w = [] ->
  kv w !! rateKey request = None ->
  lengthZ times = m ->
  Forall (fun t => hi - win < t / 1000 <= hi) (times ++ [t_over])%list ->
  Forall (fun t => t / 1000 + win <= t_after / 1000) times ->
  exists admitted r_over r_after w',
    admitSeq request env (times ++ [t_over; t_after])%list w
      = ((admitted ++ [Val r_over; Val r_after])%list, w')
    /\ length admitted = length times
    /\ Forall admittedOutcome admitted
    /\ r_over = mkRate false (Int 0)
    /\ allowed r_after = true.
Proof.
  intros Hm Hf Hfresh Hlen Hwindow Hafter.
  apply Forall_app in Hwindow. destruct Hwindow as [Hts Hover].
  assert (Hto : hi - win < t_over / 1000 <= hi)
    by (inversion Hover; assumption).
  assert (Hrec0 : recorded request hi w []) by (split; auto).
  destruct (admitSeq_fill hi times w [] Hrec0) as (results & w1 & Hseq & Hl & Hall & Hrec1);
    auto.
  { change (lengthZ (@nil Z)) with 0. lia. }
  simpl in Hrec1.
  set (rs := List.map (fun t => t / 1000) times) in *.
  assert (Hrs : Forall (fun ts => hi - win < ts) rs).
  { unfold rs. apply Forall_map. eapply Forall_impl; [exact Hts |].
    simpl. intros; lia. }
  assert (Hlenrs : lengthZ rs = m).
  { unfold rs, lengthZ in *. rewrite length_map. exact Hlen. }
  destruct (reject_recorded hi t_over w1 rs Hrec1 Hrs Hto) as (w2 & Hcall2 & Hrec2);
    [lia |].
  destruct (admit_after hi t_after w2 rs Hrec2) as (r3 & w3 & Hcall3 & Hal3); auto.
  { unfold rs. apply Forall_map. exact Hafter. }
  { lia. }
  exists results, (mkRate false (Int 0)), r3, w3.
  rewrite admitSeq_app, Hseq. simpl. rewrite Hcall2, Hcall3.
  auto.
Qed.

End SlidingWindow.

Lemma sliding_window_cap_witness :
  exists admitted r_over r_after w',
    admitSeq sampleGet (sampleEnv "2")
      [1700000000000; 1700000010000; 1700000020000; 1700000080000]
      (sampleWorld ∅ [])
      = ((admitted ++ [Val r_over; Val r_after])%list, w')
    /\ length admitted = 2%nat
    /\ Forall admittedOutcome admitted
    /\ r_over = mkRate false (Int 0)
    /\ allowed r_after = true.
Proof.
  apply (sliding_window_cap sampleGet (sampleEnv "2") 2 60 eq_refl eq_refl
           1700000030 1700000020000 1700000080000
           [1700000000000; 1700000010000] (sampleWorld ∅ [])).
  - lia.
  - reflexivity.
  - reflexivity.
  - reflexivity.
  - repeat constructor; vm_compute; congruence.
  - repeat constructor; vm_compute; congruence.
Defined.

Lemma checkRateLimit_reject_no_write_witness :
  let w := sampleWorld busyStore [] in
  let w' := log (KvGet "rate_limit:203.0.113.7") w in
  checkRateLimit sampleGet (sampleEnv "1") w = (Val (mkRate false (Int 0)), w')
  /\ kv w' = kv w
  /\ trace w' = [KvGet "rate_limit:203.0.113.7"].
Proof.
  intros w w'.
  assert (Hrun : checkRateLimit sampleGet (sampleEnv "1") w
                 = (Val (mkRate false (Int 0)), w')) by (vm_compute; reflexivity).
  split; [exact Hrun |].
  destruct (checkRateLimit_reject_no_write sampleGet (sampleEnv "1") w w'
              (mkRate false (Int 0)) Hrun eq_refl) as (_ & Hk & Ht & _).
  split; [exact Hk | exact Ht].
Defined.

Lemma checkRateLimit_fail_open_witness :
  let run := checkRateLimit sampleGet (sampleEnv "10") (sampleWorld ∅ [true]) in
  storeFailed (sampleWorld ∅ [true]) (snd run)
  /\ fst run = Val (mkRate true (Int 1)).
Proof.
  intros run.
  assert (Hfail : storeFailed (sampleWorld ∅ [true]) (snd run)).
  { exists [true]. split; [reflexivity | left; reflexivity]. }
  split; [exact Hfail |].
  apply (proj2 (checkRateLimit_fail_open sampleGet (sampleEnv "10")
                  (sampleWorld ∅ [true])) (fst run) (snd run)).
  - apply surjective_pairing.
  - exact Hfail.
Defined.

(** ** Cache layer *)

Lemma consumes_head_true (w w1 : World) :
  consumes true w w1 -> head (kvFaults w) = Some true.
Proof.
  intros [(_ & _ & H) | H]; [discriminate | rewrite H; reflexivity].
Qed.

Lemma consumes_head_false (w w1 : World) :
  consumes false w w1 -> head (kvFaults w) <> Some true.
Proof.
  intros [(H & _ & _) | H]; rewrite H; simpl; congruence.
Qed.

(** One read of the cache: a failed store call gives [null]; otherwise the
    payload of a live entry with a non-zero time stamp younger than the
    time-to-live, and [null] in every other case. *)
Lemma getCachedData_cases (key : string) (env : Env) (w w' : World)
    (o : outcome (option (list string))) :
  getCachedData key env w = (o, w') ->
  clock w' = clock w /\ kv w' = kv w
  /\ remote w' = remote w /\ siteverify w' = siteverify w
  /\ randoms w' = randoms w
  /\ trace w' = (trace w ++ [KvGet (cacheKeyOf key)])%list
  /\ ((consumes true w w' /\ o = Val None)
      \/ (consumes false w w'
          /\ o = Val
               match kvLive w (cacheKeyOf key) with
               | Some (CacheRec data timestamp) =>
                   if timestamp =? 0 then None
                   else if num_lt (Int (clock w - timestamp))
                             (num_mul (parseInt (orElse (CACHE_TTL env) "300"))
                                      (Int 1000))
                        then Some data else None
               | _ => None
               end)).
Proof.
  unfold getCachedData, tryCatch, bind, kvGet.
  destruct (popFault (log (KvGet (cacheKeyOf key)) w)) as [fault w0] eqn:Hpop.
  assert (Hsvc : remote w0 = remote w /\ siteverify w0 = siteverify w).
  { unfold popFault in Hpop. simpl in Hpop.
    destruct (kvFaults w); inversion Hpop; subst; auto. }
  apply popFault_inv in Hpop. destruct Hpop as (Hc & Hk & Ht & Hr & Hcons).
  destruct Hsvc as [Hre Hsv].
  assert (Hlive : kvLive w0 (cacheKeyOf key) = kvLive w (cacheKeyOf key))
    by (unfold kvLive; rewrite Hc, Hk; reflexivity).
  destruct fault.
  - unfold ret. intros H; inversion H; subst. repeat split; auto.
  - rewrite Hlive.
    destruct (kvLive w (cacheKeyOf key)) as [[rs | data ts] |];
      try (unfold ret; intros H; inversion H; subst; repeat split; auto; fail).
    destruct (ts =? 0).
    + unfold ret; intros H; inversion H; subst; repeat split; auto.
    + unfold dateNow. rewrite Hc.
      destruct (num_lt _ _);
        unfold ret; intros H; inversion H; subst; repeat split; auto.
Qed.

Lemma getCachedData_total (key : string) (env : Env) (w : World) :
  exists r w', getCachedData key env w = (Val r, w').
Proof.
  destruct (getCachedData key env w) as [o w'] eqn:H.
  apply getCachedData_cases in H.
  destruct H as (_ & _ & _ & _ & _ & _ & [[_ ->] | [_ ->]]); eauto.
Qed.

(** C5, as amended: with a numeric time-to-live and a cache key that holds
    nothing or an entry with a non-zero time stamp, [get] returns absent
    exactly when the store read fails, or no live entry exists, or the age of
    the entry is at least [ttl * 1000] milliseconds; in every other case it
    returns the stored payload.  The third case holds for an entry the store
    still has, so logical staleness does not wait for physical expiry. *)
Theorem getCachedData_absent_iff (key : string) (env : Env) (w : World) (ttl : Z) :
  parseInt (orElse (CACHE_TTL env) "300") = Int ttl ->
  (forall v, kvLive w (cacheKeyOf key) = Some v ->
             exists data ts, v = CacheRec data ts /\ ts <> 0) ->
  exists r w',
    getCachedData key env w = (Val r, w')
    /\ (r = None <->
          head (kvFaults w) = Some true
          \/ kvLive w (cacheKeyOf key) = None
          \/ exists data ts, kvLive w (cacheKeyOf key) = Some (CacheRec data ts)
                             /\ ttl * 1000 <= clock w - ts)
    /\ (forall data, r = Some data ->
          exists ts, kvLive w (cacheKeyOf key) = Some (CacheRec data ts)).
Proof.
  intros Httl Hwf.
  destruct (getCachedData key env w) as [o w'] eqn:H.
  apply getCachedData_cases in H.
  destruct H as (_ & _ & _ & _ & _ & _ & [[Hcons ->] | [Hcons ->]]).
  - exists None, w'. split; [reflexivity |]. split.
    + split; [intros _; left; eapply consumes_head_true; eauto | reflexivity].
    + discriminate.
  - apply consumes_head_false in Hcons. rewrite Httl. simpl num_mul.
    eexists _, w'. split; [reflexivity |].
    destruct (kvLive w (cacheKeyOf key)) as [v |] eqn:Hlive.
    + destruct (Hwf v eq_refl) as (data & ts & -> & Hts).
      destruct (Z.eqb_spec ts 0) as [? | _]; [contradiction |].
      unfold num_lt. destruct (Z.ltb_spec (clock w - ts) (ttl * 1000)) as [Hlt | Hge].
      * split.
        { split; [discriminate |].
          intros [Hf | [Hn | (d & t & Heq & Hage)]];
            [contradiction | discriminate | inversion Heq; subst; lia]. }
        { intros d Hd. inversion Hd; subst. eauto. }
      * split; [| discriminate].
        split; [| reflexivity]. intros _. right. right. eauto.
    + split; [| discriminate]. split; auto.
Qed.

Lemma getCachedData_absent_iff_witness :
  let w := sampleWorld staleStore [] in
  exists r w',
    getCachedData "whitelist_set" (sampleEnv "10") w = (Val r, w')
    /\ (r = None <->
          head (kvFaults w) = Some true
          \/ kvLive w (cacheKeyOf "whitelist_set") = None
          \/ exists data ts,
               kvLive w (cacheKeyOf "whitelist_set") = Some (CacheRec data ts)
               /\ 300 * 1000 <= clock w - ts)
    /\ (forall data, r = Some data ->
          exists ts, kvLive w (cacheKeyOf "whitelist_set") = Some (CacheRec data ts)).
Proof.
  intros w.
  apply (getCachedData_absent_iff "whitelist_set" (sampleEnv "10") w 300 eq_refl).
  intros v Hv. vm_compute in Hv. inversion Hv; subst.
  eexists _, _. split; [reflexivity | discriminate].
Defined.

(** C5 as stated fails when the age equals the time-to-live: the entry
    exists and is live, the read succeeds, the age of 300000 ms does not
    exceed [300 * 1000], and [get] still returns absent. *)
Lemma getCachedData_at_ttl_counterexample :
  let w := sampleWorld staleStore [] in
  kvLive w (cacheKeyOf "whitelist_set")
    = Some (CacheRec ["admin@co.com"] 1699999700000)
  /\ head (kvFaults w) = None
  /\ ~ (clock w - 1699999700000 > 300 * 1000)
  /\ fst (getCachedData "whitelist_set" (sampleEnv "10") w) = Val None.
Proof.
  repeat split; try reflexivity. vm_compute. discriminate.
Qed.

(** A write followed by a read at clock reading [t]: the payload comes back
    while less than [ttl * 1000] ms have passed, and absent afterwards, also
    during the 60 further seconds for which the store keeps the entry. *)
Lemma setCachedData_getCachedData (key : string) (data : list string) (env : Env)
    (w : World) (ttl t : Z) :
  parseInt (orElse (CACHE_TTL env) "300") = Int ttl ->
  0 <= ttl -> kvFaults w = [] -> clock w <> 0 -> clock w <= t ->
  let w1 := snd (setCachedData key data env w) in
  fst (getCachedData key env (setClock t w1))
    = Val (if t - clock w <? ttl * 1000 then Some data else None)
  /\ (t < clock w + (ttl + 60) * 1000 ->
      kvLive (setClock t w1) (cacheKeyOf key) = Some (CacheRec data (clock w))).
Proof.
  intros Httl Hpos Hf Hnz Hle.
  unfold setCachedData, tryCatch, bind, dateNow. rewrite Httl. simpl num_add.
  rewrite kvPut_reachable by (auto; lia). simpl snd.
  set (w1 := setKv _ _).
  assert (Hlive : kvLive (setClock t w1) (cacheKeyOf key)
                  = if t <? clock w + (ttl + 60) * 1000
                    then Some (CacheRec data (clock w)) else None).
  { unfold kvLive, w1. simpl. rewrite lookup_insert_eq. reflexivity. }
  split.
  - destruct (getCachedData key env (setClock t w1)) as [o w2] eqn:Hget.
    apply getCachedData_cases in Hget.
    destruct Hget as (_ & _ & _ & _ & _ & _ & [[Hcons _] | [_ ->]]).
    + apply consumes_head_true in Hcons. simpl in Hcons. rewrite Hf in Hcons.
      discriminate.
    + simpl fst. rewrite Hlive, Httl. simpl.
      destruct (Z.ltb_spec t (clock w + (ttl + 60) * 1000)) as [Hin | Hout].
      * destruct (Z.eqb_spec (clock w) 0); [contradiction | reflexivity].
      * destruct (Z.ltb_spec (t - clock w) (ttl * 1000)); [lia | reflexivity].
  - intros Hin. rewrite Hlive.
    destruct (Z.ltb_spec t (clock w + (ttl + 60) * 1000)); [reflexivity | lia].
Qed.

(** ** Remote document fetcher *)

Lemma globalFetch_eq (url : string) (authorization : option string) (w : World) :
  globalFetch url authorization w =
    match remote w url authorization with
    | NetworkError => (Exn FetchError, log (HttpGet url authorization) w)
    | Reply response => (Val response, log (HttpGet url authorization) w)
    end.
Proof. reflexivity. Qed.

Ltac run_method :=
  unfold tryCatch, bind; rewrite globalFetch_eq;
  match goal with
  | |- context [remote ?w ?u ?a] => destruct (remote w u a) as [| [ok st txt js]]
  end; simpl; try reflexivity;
  match goal with
  | |- context [if ?b then _ else _] => destruct b
  end; simpl; try reflexivity.

Lemma blacklistMethod1_eq (env : Env) (w : World) :
  blacklistMethod1 env [] w =
    (Val (List.filter nonBlank
            (apiLines (remote w (apiUrl env "blacklist.txt") (authorizationOf env)))),
     log (HttpGet (apiUrl env "blacklist.txt") (authorizationOf env)) w).
Proof.
  unfold blacklistMethod1. run_method.
  destruct js as [| [| decoded parsed] | doc]; reflexivity.
Qed.

Lemma blacklistMethod2_eq (env : Env) (w : World) :
  blacklistMethod2 env [] w =
    (Val (List.filter nonBlank
            (textLines (remote w (rawUrl env "blacklist.txt") None))),
     log (HttpGet (rawUrl env "blacklist.txt") None) w).
Proof. unfold blacklistMethod2. run_method. Qed.

Lemma whitelistMethod1_eq {engine : Engine} (env : Env) (w : World) :
  whitelistMethod1 env [] w =
    (Val (List.map toLowerCase
            (apiList "emails" (remote w (apiUrl env "list.json") (authorizationOf env)))),
     log (HttpGet (apiUrl env "list.json") (authorizationOf env)) w).
Proof.
  unfold whitelistMethod1. run_method.
  destruct js as [| [| decoded [doc |]] | doc]; reflexivity.
Qed.

Lemma whitelistMethod2_eq {engine : Engine} (env : Env) (w : World) :
  whitelistMethod2 env [] w =
    (Val (List.map toLowerCase
            (rawList "emails" (remote w (rawUrl env "list.json") None))),
     log (HttpGet (rawUrl env "list.json") None) w).
Proof.
  unfold whitelistMethod2. run_method.
  destruct js as [| c | doc]; reflexivity.
Qed.

Lemma whitelistMethod3_eq {engine : Engine} (env : Env) (w : World) :
  whitelistMethod3 env [] w =
    (Val (List.map toLowerCase
            (List.filter (fun email => negb (String.eqb email EmptyString) && hasChar "@" email)
               (List.map trim (textLines (remote w (rawUrl env "emails.txt") None))))),
     log (HttpGet (rawUrl env "emails.txt") None) w).
Proof. unfold whitelistMethod3. run_method. Qed.

Lemma urlsMethod1_eq (env : Env) (w : World) :
  urlsMethod1 env [] w =
    (Val (apiList "urls" (remote w (apiUrl env "url.json") (authorizationOf env))),
     log (HttpGet (apiUrl env "url.json") (authorizationOf env)) w).
Proof.
  unfold urlsMethod1. run_method.
  destruct js as [| [| decoded [doc |]] | doc]; reflexivity.
Qed.

Lemma urlsMethod2_eq (env : Env) (w : World) :
  urlsMethod2 env [] w =
    (Val (rawList "urls" (remote w (rawUrl env "url.json") None)),
     log (HttpGet (rawUrl env "url.json") None) w).
Proof.
  unfold urlsMethod2. run_method.
  destruct js as [| c | doc]; reflexivity.
Qed.

Lemma urlsMethod3_eq (env : Env) (w : World) :
  urlsMethod3 env [] w =
    (Val (List.filter (fun url => negb (String.eqb url EmptyString) && startsWith "http" url)
            (List.map trim (textLines (remote w (rawUrl env "urls.txt") None)))),
     log (HttpGet (rawUrl env "urls.txt") None) w).
Proof. unfold urlsMethod3. run_method. Qed.

Lemma fetches_app (a b : list event) :
  fetches (a ++ b)%list = (fetches a ++ fetches b)%list.
Proof.
  induction a as [| e a IH]; simpl; [reflexivity |].
  destruct e; simpl; rewrite IH; reflexivity.
Qed.

(** A cache write never raises, touches nothing but the store and requests
    nothing over HTTP. *)
Lemma setCachedData_frame (key : string) (data : list string) (env : Env) (w : World) :
  exists w',
    setCachedData key data env w = (Val tt, w')
    /\ clock w' = clock w /\ remote w' = remote w /\ siteverify w' = siteverify w
    /\ randoms w' = randoms w
    /\ fetches (trace w') = fetches (trace w).
Proof.
  unfold setCachedData, tryCatch, bind, dateNow, kvPut.
  destruct (popFault _) as [fault w0] eqn:Hpop.
  assert (Hsvc : remote w0 = remote w /\ siteverify w0 = siteverify w).
  { unfold popFault in Hpop. simpl in Hpop.
    destruct (kvFaults w); inversion Hpop; subst; auto. }
  apply popFault_inv in Hpop. destruct Hpop as (Hc & Hk & Ht & Hr & _).
  destruct Hsvc as [Hre Hsv].
  assert (Hfe : fetches (trace w0) = fetches (trace w)).
  { rewrite Ht, fetches_app. simpl. apply app_nil_r. }
  destruct fault; [eexists; split; [reflexivity | auto] |].
  destruct (num_add _ _) as [| t]; [eexists; split; [reflexivity | auto] |].
  destruct (60 <=? t); eexists; (split; [reflexivity | simpl; auto]).
Qed.

Lemma isEmpty_true {A : Type} (l : list A) : isEmpty l = true -> l = [].
Proof. destruct l; [reflexivity | discriminate]. Qed.

Lemma isEmpty_false {A : Type} (l : list A) : isEmpty l = false -> l <> [].
Proof. destruct l; [discriminate | intros _; discriminate]. Qed.

(** After a strategy has been rewritten to its equation: name its yield and
    the world it leaves, and split on whether the yield is empty. *)
Ltac name_yield H l w E :=
  match type of H with
  | _ = (Val ?x, ?wx) => remember x as l eqn:E; remember wx as w
  end.

Ltac store_result name l env w :=
  let w' := fresh "w'" in
  let Hs := fresh "Hs" in
  destruct (setCachedData_frame name l env w) as (w' & Hs & _);
  rewrite Hs; reflexivity.

Ltac step_cascade := unfold ret; cbn [isEmpty negb]; cbv beta iota.

(** The cascade of the allow-list fetcher after a cache miss. *)
Lemma getWhitelistSet_miss {engine : Engine} (env : Env) (w w0 : World) :
  getCachedData "whitelist_set" env w = (Val None, w0) ->
  exists l w1,
    firstNonEmpty
      [whitelistMethod1 env []; whitelistMethod2 env []; whitelistMethod3 env []]
      w0 l w1
    /\ getWhitelistSet env w =
         (Val (list_to_set l),
          if isEmpty l then w1 else snd (setCachedData "whitelist_set" l env w1)).
Proof.
  intros Hmiss. unfold getWhitelistSet, tryCatch, bind. rewrite Hmiss.
  pose proof (whitelistMethod1_eq env w0) as H1. rewrite H1.
  name_yield H1 l1 w1 E1. destruct l1 as [| x1 t1].
  2:{ exists (x1 :: t1), w1. split; [apply fne_wins; [exact H1 | discriminate] |].
      step_cascade. store_result "whitelist_set" (x1 :: t1) env w1. }
  step_cascade.
  pose proof (whitelistMethod2_eq env w1) as H2. rewrite H2.
  name_yield H2 l2 w2 E2. destruct l2 as [| x2 t2].
  2:{ exists (x2 :: t2), w2. split.
      - apply fne_next with (w1 := w1); [exact H1 |].
        apply fne_wins; [exact H2 | discriminate].
      - step_cascade. store_result "whitelist_set" (x2 :: t2) env w2. }
  step_cascade.
  pose proof (whitelistMethod3_eq env w2) as H3. rewrite H3.
  name_yield H3 l3 w3 E3. exists l3, w3. split.
  - apply fne_next with (w1 := w1); [exact H1 |].
    apply fne_next with (w1 := w2); [exact H2 |].
    destruct l3 as [| x3 t3].
    + apply fne_next with (w1 := w3); [exact H3 | apply fne_none].
    + apply fne_wins; [exact H3 | discriminate].
  - destruct l3 as [| x3 t3]; step_cascade.
    + reflexivity.
    + store_result "whitelist_set" (x3 :: t3) env w3.
Qed.

Lemma getWhitelistSet_hit {engine : Engine} (env : Env) (w w0 : World) (c : list string) :
  getCachedData "whitelist_set" env w = (Val (Some c), w0) ->
  getWhitelistSet env w = (Val (list_to_set c), w0).
Proof.
  intros Hhit. unfold getWhitelistSet, tryCatch, bind. rewrite Hhit. reflexivity.
Qed.

(** The cascade of the deny-list fetcher after a cache miss. *)
Lemma getBlacklist_miss (env : Env) (w w0 : World) :
  getCachedData "blacklist" env w = (Val None, w0) ->
  exists l w1,
    firstNonEmpty [blacklistMethod1 env []; blacklistMethod2 env []] w0 l w1
    /\ getBlacklist env w =
         (Val l, if isEmpty l then w1 else snd (setCachedData "blacklist" l env w1)).
Proof.
  intros Hmiss. unfold getBlacklist, tryCatch, bind. rewrite Hmiss.
  pose proof (blacklistMethod1_eq env w0) as H1. rewrite H1.
  name_yield H1 l1 w1 E1. destruct l1 as [| x1 t1].
  2:{ exists (x1 :: t1), w1. split; [apply fne_wins; [exact H1 | discriminate] |].
      step_cascade. store_result "blacklist" (x1 :: t1) env w1. }
  step_cascade.
  pose proof (blacklistMethod2_eq env w1) as H2. rewrite H2.
  name_yield H2 l2 w2 E2. exists l2, w2. split.
  - apply fne_next with (w1 := w1); [exact H1 |].
    destruct l2 as [| x2 t2].
    + apply fne_next with (w1 := w2); [exact H2 | apply fne_none].
    + apply fne_wins; [exact H2 | discriminate].
  - destruct l2 as [| x2 t2]; step_cascade.
    + reflexivity.
    + store_result "blacklist" (x2 :: t2) env w2.
Qed.

Lemma getBlacklist_hit (env : Env) (w w0 : World) (c : list string) :
  getCachedData "blacklist" env w = (Val (Some c), w0) ->
  getBlacklist env w = (Val c, w0).
Proof.
  intros Hhit. unfold getBlacklist, tryCatch, bind. rewrite Hhit. reflexivity.
Qed.

(** The draw never raises. *)
Lemma pickRandom_eq (urls : list string) (w : World) :
  pickRandom urls w =
    match urls with
    | [] => (Val None, w)
    | _ :: _ =>
        let w1 := log MathRandom w in
        match randoms w with
        | r :: rs => (Val (urls !! floorTimes r (length urls)), setRandoms rs w1)
        | [] => (Val (urls !! floorTimes zeroDraw (length urls)), w1)
        end
    end.
Proof.
  unfold pickRandom. destruct urls as [| u us]; [reflexivity |].
  unfold bind, mathRandom. cbn [isEmpty]. cbv beta iota.
  simpl randoms. destruct (randoms w); reflexivity.
Qed.

Lemma pickRandom_total (urls : list string) (w : World) :
  exists o w', pickRandom urls w = (Val o, w').
Proof.
  rewrite pickRandom_eq. destruct urls; [eauto |].
  simpl. destruct (randoms w); eauto.
Qed.

(** The cascade of the redirect-pool fetcher after a cache miss. *)
Lemma getRandomRedirectUrl_miss (env : Env) (w w0 : World) :
  getCachedData "redirect_urls" env w = (Val None, w0) ->
  exists l w1,
    firstNonEmpty
      [urlsMethod1 env []; urlsMethod2 env []; urlsMethod3 env []] w0 l w1
    /\ getRandomRedirectUrl env w =
         pickRandom l
           (if isEmpty l then w1 else snd (setCachedData "redirect_urls" l env w1)).
Proof.
  intros Hmiss. unfold getRandomRedirectUrl, tryCatch, bind. rewrite Hmiss.
  pose proof (urlsMethod1_eq env w0) as H1. rewrite H1.
  name_yield H1 l1 w1 E1. destruct l1 as [| x1 t1].
  2:{ exists (x1 :: t1), w1. split; [apply fne_wins; [exact H1 | discriminate] |].
      step_cascade.
      destruct (setCachedData_frame "redirect_urls" (x1 :: t1) env w1) as (w' & Hs & _).
      rewrite Hs. cbv beta iota. simpl snd.
      destruct (pickRandom_total (x1 :: t1) w') as (o & w'' & Hp). rewrite Hp.
      reflexivity. }
  step_cascade.
  pose proof (urlsMethod2_eq env w1) as H2. rewrite H2.
  name_yield H2 l2 w2 E2. destruct l2 as [| x2 t2].
  2:{ exists (x2 :: t2), w2. split.
      - apply fne_next with (w1 := w1); [exact H1 |].
        apply fne_wins; [exact H2 | discriminate].
      - step_cascade.
        destruct (setCachedData_frame "redirect_urls" (x2 :: t2) env w2) as (w' & Hs & _).
        rewrite Hs. cbv beta iota. simpl snd.
        destruct (pickRandom_total (x2 :: t2) w') as (o & w'' & Hp). rewrite Hp.
        reflexivity. }
  step_cascade.
  pose proof (urlsMethod3_eq env w2) as H3. rewrite H3.
  name_yield H3 l3 w3 E3. exists l3, w3. split.
  - apply fne_next with (w1 := w1); [exact H1 |].
    apply fne_next with (w1 := w2); [exact H2 |].
    destruct l3 as [| x3 t3].
    + apply fne_next with (w1 := w3); [exact H3 | apply fne_none].
    + apply fne_wins; [exact H3 | discriminate].
  - destruct l3 as [| x3 t3]; step_cascade.
    + reflexivity.
    + destruct (setCachedData_frame "redirect_urls" (x3 :: t3) env w3) as (w' & Hs & _).
      rewrite Hs. cbv beta iota. simpl snd.
      destruct (pickRandom_total (x3 :: t3) w') as (o & w'' & Hp). rewrite Hp.
      reflexivity.
Qed.

Lemma getRandomRedirectUrl_hit (env : Env) (w w0 : World) (c : list string) :
  getCachedData "redirect_urls" env w = (Val (Some c), w0) ->
  getRandomRedirectUrl env w = pickRandom c w0.
Proof.
  intros Hhit. unfold getRandomRedirectUrl, tryCatch, bind. rewrite Hhit.
  destruct (pickRandom_total c w0) as (o & w' & Hp). rewrite Hp. reflexivity.
Qed.

(** ** Access validator *)

Lemma tryCatch_ret_total {A : Type} (c : M A) (d : A) (w : World) :
  exists a w', tryCatch c (fun _ => ret d) w = (Val a, w').
Proof.
  unfold tryCatch, ret. destruct (c w) as [[a | e] w']; eauto.
Qed.

Lemma verifyTurnstile_total (token : option string) (clientIP : string) (w : World) :
  exists valid w', verifyTurnstile token clientIP w = (Val valid, w').
Proof. apply tryCatch_ret_total. Qed.

Lemma getBlacklist_total (env : Env) (w : World) :
  exists l w', getBlacklist env w = (Val l, w').
Proof. apply tryCatch_ret_total. Qed.

Lemma getWhitelistSet_total {engine : Engine} (env : Env) (w : World) :
  exists s w', getWhitelistSet env w = (Val s, w').
Proof. apply tryCatch_ret_total. Qed.

Lemma getRandomRedirectUrl_total (env : Env) (w : World) :
  exists o w', getRandomRedirectUrl env w = (Val o, w').
Proof. apply tryCatch_ret_total. Qed.

(** The validator on a POST with a JSON body, stage by stage: each stage
    runs in the world its predecessor left. *)
Lemma handleValidation_stages {engine : Engine}
    (request : Request) (env : Env) (body : ValidationBody)
    (w w1 w2 w3 w4 : World) (valid : bool) (blacklist : list string)
    (whitelistSet : gset string) (redirectUrl : option string) :
  method request = "POST" ->
  requestJson request = Some body ->
  verifyTurnstile (turnstileToken body) (clientIPOf request) w = (Val valid, w1) ->
  getBlacklist env w1 = (Val blacklist, w2) ->
  getWhitelistSet env w2 = (Val whitelistSet, w3) ->
  getRandomRedirectUrl env w3 = (Val redirectUrl, w4) ->
  handleValidation request env w =
    if honeypotFilled body then (Val accessDenied, w)
    else if negb (wellFormed body) then
      (Val (if negb (truthy (email body)) || negb (truthy (turnstileToken body))
            then failure "Missing required fields" 400
            else failure "Invalid email format" 400), w)
    else if negb valid then (Val verificationFailed, w1)
    else if includes blacklist (clientIPOf request) then (Val accessDenied, w2)
    else if negb (bool_decide (toLowerCase (interp (email body)) ∈ whitelistSet))
         then (Val notOnList, w3)
    else if negb (truthy redirectUrl) then (Val noRedirects, w4)
    else (Val (success (interp redirectUrl +:+ interp (email body))), w4).
Proof.
  intros Hm Hb Hv Hbl Hwl Hr.
  unfold requestJson in Hb.
  destruct (json request) as [b |] eqn:Hjson; [| discriminate].
  assert (Hhoney : (let* honeypotSet :=
                      match jsonHoneypotField b with
                      | Undefined => ret false
                      | Text s => ret (negb (String.eqb s EmptyString) && nonBlank s)
                      | NotText false => ret false
                      | NotText true => throw TypeError
                      end in
                    @ret bool honeypotSet) w
                   = (Val (honeypotFilled body), w)
                   /\ email body = jsonEmail b
                   /\ turnstileToken body = jsonTurnstileToken b).
  { destruct (jsonHoneypotField b) as [| s | []]; inversion Hb; subst body;
      repeat split; reflexivity. }
  destruct Hhoney as (Hhoney & He & Ht).
  unfold handleValidation, tryCatch, bind. rewrite Hm, Hjson.
  change (String.eqb "POST" "POST") with true. cbn [negb]. unfold ret at 1.
  cbv beta iota zeta.
  unfold bind in Hhoney.
  destruct (match jsonHoneypotField b with
            | Undefined => ret false
            | Text s => ret (negb (String.eqb s EmptyString) && nonBlank s)
            | NotText false => ret false
            | NotText true => throw TypeError
            end w) as [[filled | e] wh] eqn:Hh; [| discriminate].
  unfold ret in Hhoney. inversion Hhoney; subst filled wh.
  rewrite <- He, <- Ht.
  destruct (honeypotFilled body); [reflexivity |].
  unfold wellFormed.
  destruct (truthy (email body)); cbn [negb orb andb]; [| reflexivity].
  destruct (truthy (turnstileToken body)); cbn [negb orb andb]; [| reflexivity].
  destruct (emailRegex_test (interp (email body))); cbn [negb]; [| reflexivity].
  rewrite Hv. destruct valid; cbn [negb]; [| reflexivity].
  rewrite Hbl. destruct (includes blacklist (clientIPOf request)); [reflexivity |].
  rewrite Hwl.
  destruct (bool_decide (toLowerCase (interp (email body)) ∈ whitelistSet));
    cbn [negb]; [| reflexivity].
  rewrite Hr. destruct (truthy redirectUrl); reflexivity.
Qed.

Lemma handleValidation_not_post {engine : Engine}
    (request : Request) (env : Env) (w : World) :
  method request <> "POST" ->
  handleValidation request env w
    = (Val (mkResponse (Some "Method Not Allowed") 405 []), w).
Proof.
  intros Hm. unfold handleValidation, tryCatch.
  destruct (String.eqb_spec (method request) "POST") as [Heq | _];
    [contradiction | reflexivity].
Qed.

Lemma handleValidation_bad_json {engine : Engine}
    (request : Request) (env : Env) (w : World) :
  method request = "POST" ->
  requestJson request = None ->
  handleValidation request env w = (Val (failure "Internal server error" 500), w).
Proof.
  intros Hm Hb. unfold handleValidation, tryCatch, bind. rewrite Hm.
  unfold requestJson in Hb.
  change (String.eqb "POST" "POST") with true. cbn [negb].
  destruct (json request) as [b |]; [| reflexivity].
  unfold ret at 1. cbv beta iota zeta.
  destruct (jsonHoneypotField b) as [| s | []]; try discriminate.
  reflexivity.
Qed.

Lemma trim_empty : trim EmptyString = EmptyString.
Proof. reflexivity. Qed.

(** C8, as amended: a honeypot that is a string with a character other than
    white space ends the validation at once.  On a POST with a JSON body
    whose honeypot field is such a string, whatever the email and the token,
    the validator answers 403 "Access denied" and leaves the world as it
    found it: nothing is read from the store, nothing is requested over HTTP
    and the verification service is not called. *)
Theorem honeypot_rejects_first {engine : Engine} (request : Request) (env : Env)
    (posted : JsonObject) (honeypot : string) (w : World) :
  method request = "POST" ->
  json request = Some posted ->
  jsonHoneypotField posted = Text honeypot ->
  trim honeypot <> EmptyString ->
  handleValidation request env w = (Val accessDenied, w)
  /\ status accessDenied = 403.
Proof.
  intros Hm Hj Hh Hfilled.
  set (form := mkBody (jsonEmail posted) (jsonTurnstileToken posted) (Some honeypot)).
  assert (Hb : requestJson request = Some form)
    by (unfold requestJson; rewrite Hj, Hh; reflexivity).
  assert (Hf : honeypotFilled form = true).
  { unfold honeypotFilled, truthy, nonBlank. simpl.
    destruct (String.eqb_spec honeypot EmptyString) as [-> | _];
      [rewrite trim_empty in Hfilled; contradiction |].
    destruct (String.eqb_spec (trim honeypot) EmptyString) as [Ht | _];
      [contradiction | reflexivity]. }
  destruct (verifyTurnstile_total (turnstileToken form) (clientIPOf request) w)
    as (valid & w1 & Hv).
  destruct (getBlacklist_total env w1) as (bl & w2 & Hbl).
  destruct (getWhitelistSet_total env w2) as (wl & w3 & Hwl).
  destruct (getRandomRedirectUrl_total env w3) as (u & w4 & Hr).
  rewrite (handleValidation_stages request env form w w1 w2 w3 w4 valid bl wl u
             Hm Hb Hv Hbl Hwl Hr).
  rewrite Hf. split; reflexivity.
Qed.

(** C1, as amended: the rejections do not all share one shape.  A filled
    honeypot and a deny-list hit give the same response, status 403 with the
    message "Access denied"; an allow-list miss gives status 403 with a
    message of its own; a failed bot verification gives status 400 with a
    message of its own. *)
Theorem denial_responses {engine : Engine}
    (request : Request) (env : Env) (form : ValidationBody)
    (w w1 w2 w3 : World) (valid : bool) (blacklist : list string)
    (whitelistSet : gset string) :
  method request = "POST" ->
  requestJson request = Some form ->
  verifyTurnstile (turnstileToken form) (clientIPOf request) w = (Val valid, w1) ->
  getBlacklist env w1 = (Val blacklist, w2) ->
  getWhitelistSet env w2 = (Val whitelistSet, w3) ->
  (honeypotFilled form = true ->
     handleValidation request env w = (Val accessDenied, w))
  /\ (honeypotFilled form = false -> wellFormed form = true ->
        (valid = false ->
           handleValidation request env w = (Val verificationFailed, w1))
        /\ (valid = true -> includes blacklist (clientIPOf request) = true ->
              handleValidation request env w = (Val accessDenied, w2))
        /\ (valid = true -> includes blacklist (clientIPOf request) = false ->
              toLowerCase (interp (email form)) ∉ whitelistSet ->
              handleValidation request env w = (Val notOnList, w3)))
  /\ status accessDenied = 403 /\ status notOnList = 403
  /\ status verificationFailed = 400
  /\ body accessDenied <> body notOnList
  /\ body accessDenied <> body verificationFailed.
Proof.
  intros Hm Hb Hv Hbl Hwl.
  destruct (getRandomRedirectUrl_total env w3) as (u & w4 & Hr).
  pose proof (handleValidation_stages request env form w w1 w2 w3 w4 valid
                blacklist whitelistSet u Hm Hb Hv Hbl Hwl Hr) as Heq.
  split; [intros Hh; rewrite Heq, Hh; reflexivity |].
  split.
  - intros Hh Hwf. rewrite Heq, Hh, Hwf. cbn [negb].
    split; [intros ->; reflexivity |].
    split; [intros -> ->; reflexivity |].
    intros -> -> Hnot. rewrite bool_decide_eq_false_2 by exact Hnot. reflexivity.
  - repeat split; try reflexivity; vm_compute; discriminate.
Qed.

(** ** Redirect pool *)

Lemma firstNonEmpty_det (ms : list (M (list string))) (w : World)
    (l l' : list string) (w1 w1' : World) :
  firstNonEmpty ms w l w1 -> firstNonEmpty ms w l' w1' -> l = l' /\ w1 = w1'.
Proof.
  intros H. revert l' w1'.
  induction H as [w | m ms w w' l Hrun Hne | m ms w wa w' l Hrun Hrest IH];
    intros l' w1' H'; inversion H'; subst.
  - auto.
  - split; congruence.
  - congruence.
  - congruence.
  - apply IH. congruence.
Qed.

Lemma redirectPool_exists (env : Env) (w : World) :
  exists pool wp, redirectPool env w pool wp.
Proof.
  destruct (getCachedData_total "redirect_urls" env w) as ([c |] & w0 & Hget).
  - exists c, w0. apply pool_cached. exact Hget.
  - destruct (getRandomRedirectUrl_miss env w w0 Hget) as (l & w1 & Hfne & _).
    eexists _, _. eapply pool_fetched; eauto.
Qed.

Lemma redirectPool_draw (env : Env) (w wp : World) (pool : list string) :
  redirectPool env w pool wp ->
  getRandomRedirectUrl env w = pickRandom pool wp.
Proof.
  intros [c w0 Hhit | l w0 w1 Hmiss Hfne].
  - apply getRandomRedirectUrl_hit. exact Hhit.
  - destruct (getRandomRedirectUrl_miss env w w0 Hmiss) as (l' & w1' & Hfne' & Heq).
    destruct (firstNonEmpty_det _ _ _ _ _ _ Hfne Hfne') as [-> ->]. exact Heq.
Qed.

Lemma pickRandom_nonempty (pool : list string) (w : World) :
  pool <> [] ->
  exists u w',
    pickRandom pool w = (Val (Some u), w')
    /\ pool !! floorTimes (nextDraw w) (length pool) = Some u.
Proof.
  intros Hne. rewrite pickRandom_eq. unfold nextDraw.
  destruct pool as [| p ps]; [contradiction |].
  assert (Hlt : forall r, (floorTimes r (length (p :: ps)) < length (p :: ps))%nat)
    by (intros r; apply floorTimes_lt; simpl; lia).
  cbv zeta.
  destruct (randoms w) as [| r rs].
  - destruct (lookup_lt_is_Some_2 (p :: ps) _ (Hlt zeroDraw)) as [u Hu].
    rewrite Hu. eauto.
  - destruct (lookup_lt_is_Some_2 (p :: ps) _ (Hlt r)) as [u Hu].
    rewrite Hu. eauto.
Qed.

(** C9, as amended: after every access check has passed, an empty redirect
    pool gives the 500 response "No redirect URLs available", not a 403 or a
    400.  From a non-empty pool one entry is drawn; when that entry is not
    the empty string the response is the 200 success whose [redirectUrl] is
    the entry followed by the email exactly as submitted, and when it is the
    empty string the response is the same 500 as for an empty pool. *)
Theorem redirect_or_server_error {engine : Engine} (request : Request) (env : Env)
    (form : ValidationBody) (w w1 w2 w3 wp : World) (blacklist : list string)
    (whitelistSet : gset string) (pool : list string) :
  method request = "POST" ->
  requestJson request = Some form ->
  honeypotFilled form = false ->
  wellFormed form = true ->
  verifyTurnstile (turnstileToken form) (clientIPOf request) w = (Val true, w1) ->
  getBlacklist env w1 = (Val blacklist, w2) ->
  includes blacklist (clientIPOf request) = false ->
  getWhitelistSet env w2 = (Val whitelistSet, w3) ->
  toLowerCase (interp (email form)) ∈ whitelistSet ->
  redirectPool env w3 pool wp ->
  (pool = [] ->
     handleValidation request env w = (Val noRedirects, wp)
     /\ status noRedirects = 500)
  /\ (pool <> [] ->
        exists u w4,
          In u pool
          /\ (u <> EmptyString ->
                handleValidation request env w
                  = (Val (success (u +:+ interp (email form))), w4)
                /\ status (success (u +:+ interp (email form))) = 200)
          /\ (u = EmptyString ->
                handleValidation request env w = (Val noRedirects, w4))).
Proof.
  intros Hm Hb Hh Hwf Hv Hbl Hinc Hwl Hin Hpool.
  apply redirectPool_draw in Hpool.
  split.
  - intros ->. rewrite pickRandom_eq in Hpool.
    rewrite (handleValidation_stages request env form w w1 w2 w3 wp true
               blacklist whitelistSet None Hm Hb Hv Hbl Hwl Hpool).
    rewrite Hh, Hwf, Hinc. rewrite bool_decide_eq_true_2 by exact Hin.
    split; reflexivity.
  - intros Hne.
    destruct (pickRandom_nonempty pool wp Hne) as (u & w4 & Hpick & Hu).
    rewrite Hpick in Hpool. exists u, w4.
    split; [apply list_elem_of_In; eapply list_elem_of_lookup_2; exact Hu |].
    rewrite (handleValidation_stages request env form w w1 w2 w3 w4 true
               blacklist whitelistSet (Some u) Hm Hb Hv Hbl Hwl Hpool).
    rewrite Hh, Hwf, Hinc. rewrite bool_decide_eq_true_2 by exact Hin.
    cbn [negb]. unfold truthy.
    split.
    + intros Hnz. destruct (String.eqb_spec u EmptyString) as [-> | _];
        [contradiction | split; reflexivity].
    + intros ->. reflexivity.
Qed.

(** ** Fallback order of the fetcher *)

(** A reply that is a transport failure, or a response that is not [ok],
    yields nothing under every method. *)
Lemma failed_reply_yields_nothing (name : string) (reply : httpReply) :
  (reply = NetworkError
   \/ exists st txt js, reply = Reply (mkFetchResponse false st txt js)) ->
  apiList name reply = [] /\ rawList name reply = []
  /\ apiLines reply = [] /\ textLines reply = [].
Proof.
  intros [-> | (st & txt & js & ->)]; repeat split; reflexivity.
Qed.

(** A response whose body does not parse yields nothing under the methods
    that parse it. *)
Lemma unparsed_reply_yields_nothing (name : string) (st : Z) (txt : string)
    (js : jsonBody) :
  (js = JsonInvalid \/ js = JsonContents B64Invalid
   \/ exists decoded, js = JsonContents (B64Text decoded None)) ->
  apiList name (Reply (mkFetchResponse true st txt js)) = []
  /\ rawList name (Reply (mkFetchResponse true st txt js)) = [].
Proof.
  intros [-> | [-> | (decoded & ->)]]; split; reflexivity.
Qed.

(** C6, as amended: no exception escapes a fetcher, and after a cache miss
    the retrieval methods run in their fixed order until one yields a
    non-empty list; that list is the result (and is cached), and the methods
    after it are not run.  A method whose transport or parse fails yields the
    empty list, and so does one whose document parses but has no entries; in
    both cases the next method runs, and the result is empty when all of them
    yield nothing. *)
Theorem fetcher_first_non_empty {engine : Engine} (env : Env) (w w0 : World) :
  ((exists l w', getBlacklist env w = (Val l, w'))
   /\ (exists s w', getWhitelistSet env w = (Val s, w'))
   /\ (exists o w', getRandomRedirectUrl env w = (Val o, w')))
  /\ (getCachedData "blacklist" env w = (Val None, w0) ->
      exists l w1,
        firstNonEmpty [blacklistMethod1 env []; blacklistMethod2 env []] w0 l w1
        /\ getBlacklist env w =
             (Val l, if isEmpty l then w1
                     else snd (setCachedData "blacklist" l env w1)))
  /\ (getCachedData "whitelist_set" env w = (Val None, w0) ->
      exists l w1,
        firstNonEmpty
          [whitelistMethod1 env []; whitelistMethod2 env []; whitelistMethod3 env []]
          w0 l w1
        /\ getWhitelistSet env w =
             (Val (list_to_set l),
              if isEmpty l then w1
              else snd (setCachedData "whitelist_set" l env w1)))
  /\ (getCachedData "redirect_urls" env w = (Val None, w0) ->
      exists l w1,
        firstNonEmpty
          [urlsMethod1 env []; urlsMethod2 env []; urlsMethod3 env []] w0 l w1
        /\ getRandomRedirectUrl env w =
             pickRandom l
               (if isEmpty l then w1
                else snd (setCachedData "redirect_urls" l env w1))).
Proof.
  split; [| split; [| split]].
  - split; [apply getBlacklist_total |].
    split; [apply getWhitelistSet_total | apply getRandomRedirectUrl_total].
  - apply getBlacklist_miss.
  - apply getWhitelistSet_miss.
  - apply getRandomRedirectUrl_miss.
Qed.

(** ** Case-insensitive allow-list *)

Lemma rate_key_not_cache_key (request : Request) (name : string) :
  rateKey request <> cacheKeyOf name.
Proof. unfold rateKey, cacheKeyOf. simpl. discriminate. Qed.

(** A cache write, whatever its outcome. *)
Lemma setCachedData_cases (key : string) (data : list string) (env : Env)
    (w w' : World) (o : outcome unit) :
  setCachedData key data env w = (o, w') ->
  let ttl := num_add (parseInt (orElse (CACHE_TTL env) "300")) (Int 60) in
  o = Val tt
  /\ clock w' = clock w
  /\ trace w' = (trace w ++ [KvPut (cacheKeyOf key) (CacheRec data (clock w)) ttl])%list
  /\ ((exists t, ttl = Int t /\ 60 <= t
                 /\ kv w' = <[cacheKeyOf key :=
                                mkEntry (CacheRec data (clock w)) (clock w + t * 1000)]>
                              (kv w)
                 /\ consumes false w w')
      \/ (kv w' = kv w /\ exists b, consumes b w w')).
Proof.
  intros H ttl. unfold setCachedData, tryCatch, bind, dateNow in H. fold ttl in H.
  destruct (kvPut (cacheKeyOf key) (CacheRec data (clock w)) ttl w) as [op w1] eqn:Hput.
  apply kvPut_inv in Hput. destruct Hput as (Hc & Ht & Hp).
  destruct Hp as [(t & Htt & Hle & -> & Hk & Hcons) | (e & b & -> & Hk & Hcons)];
    unfold ret in H; inversion H; subst; repeat split; auto.
  - left. exists t. auto.
  - right. split; [exact Hk | eauto].
Qed.

Lemma logAll_trace (es : list event) (w : World) :
  trace (logAll es w) = (trace w ++ es)%list.
Proof.
  revert w. induction es as [| e es IH]; intros w; simpl.
  - symmetry. apply app_nil_r.
  - rewrite IH. simpl. rewrite <- app_assoc. reflexivity.
Qed.

Lemma logAll_frame (es : list event) (w : World) :
  clock (logAll es w) = clock w /\ kv (logAll es w) = kv w
  /\ kvFaults (logAll es w) = kvFaults w.
Proof.
  revert w. induction es as [| e es IH]; intros w; simpl; [auto |].
  destruct (IH (log e w)) as (Hc & Hk & Hf). simpl in *. auto.
Qed.

(** Strategies that each make one request leave, after the cascade, the
    world in which a prefix of their requests has been logged. *)
Lemma firstNonEmpty_logged (ms : list (M (list string)))
    (plan : list (string * option string)) (w w1 : World) (l : list string) :
  Forall2 requests ms plan ->
  firstNonEmpty ms w l w1 ->
  exists n, (n <= length plan)%nat
            /\ w1 = logAll (List.map httpGetOf (take n plan)) w.
Proof.
  intros Hplan Hrun. revert plan Hplan.
  induction Hrun as [w | m ms w w' l Hm Hne | m ms w wa w' l Hm Hrest IH];
    intros plan Hplan; inversion Hplan as [| m0 p ms0 plan' Hreq Hrest' ]; subst.
  - exists 0%nat. split; [simpl; lia | reflexivity].
  - destruct (Hreq w) as (l0 & Hl0). rewrite Hl0 in Hm. inversion Hm; subst.
    exists 1%nat. split; [simpl; lia | reflexivity].
  - destruct (Hreq w) as (l0 & Hl0). rewrite Hl0 in Hm. inversion Hm; subst.
    destruct (IH plan' Hrest') as (n & Hn & Hw).
    exists (S n). split; [simpl; lia | exact Hw].
Qed.

Lemma whitelist_requests {engine : Engine} (env : Env) :
  Forall2 requests
    [whitelistMethod1 env []; whitelistMethod2 env []; whitelistMethod3 env []]
    (whitelistPlan env).
Proof.
  repeat constructor; intros w; eexists.
  - apply whitelistMethod1_eq.
  - apply whitelistMethod2_eq.
  - apply whitelistMethod3_eq.
Qed.

Lemma blacklist_requests (env : Env) :
  Forall2 requests [blacklistMethod1 env []; blacklistMethod2 env []]
    (blacklistPlan env).
Proof.
  repeat constructor; intros w; eexists.
  - apply blacklistMethod1_eq.
  - apply blacklistMethod2_eq.
Qed.

Lemma urls_requests (env : Env) :
  Forall2 requests [urlsMethod1 env []; urlsMethod2 env []; urlsMethod3 env []]
    (urlsPlan env).
Proof.
  repeat constructor; intros w; eexists.
  - apply urlsMethod1_eq.
  - apply urlsMethod2_eq.
  - apply urlsMethod3_eq.
Qed.

Lemma cascade_frame (ms : list (M (list string)))
    (plan : list (string * option string)) (w w1 : World) (l : list string) :
  Forall2 requests ms plan ->
  firstNonEmpty ms w l w1 ->
  clock w1 = clock w /\ kv w1 = kv w /\ kvFaults w1 = kvFaults w.
Proof.
  intros Hplan Hrun.
  destruct (firstNonEmpty_logged ms plan w w1 l Hplan Hrun) as (n & _ & ->).
  apply logAll_frame.
Qed.

Lemma verifyTurnstile_eq (token : option string) (clientIP : string) (w : World) :
  verifyTurnstile token clientIP w =
    if truthy token
    then (Val match siteverify w (interp token) clientIP with
              | VerifyResult success => success
              | _ => false
              end,
          log (SiteVerify (interp token) clientIP) w)
    else (Val false, w).
Proof.
  unfold verifyTurnstile, tryCatch, postSiteVerify.
  destruct (truthy token); [| reflexivity]. simpl.
  destruct (siteverify w (interp token) clientIP); reflexivity.
Qed.

Lemma map_nil_inv {A B : Type} (f : A -> B) (l : list A) :
  List.map f l = [] -> l = [].
Proof. destruct l; [reflexivity | discriminate]. Qed.

Lemma map_not_nil {A B : Type} (f : A -> B) (l : list A) :
  List.map f l <> [] -> l <> [].
Proof. destruct l; [intros H; contradiction | discriminate]. Qed.

Lemma firstNonEmptyOf_head (l : list string) (rest : list (list string)) :
  l <> [] -> firstNonEmptyOf (l :: rest) = l.
Proof. destruct l; [contradiction | reflexivity]. Qed.

Lemma firstNonEmptyOf_skip (rest : list (list string)) :
  firstNonEmptyOf ([] :: rest) = firstNonEmptyOf rest.
Proof. reflexivity. Qed.

(** What the allow-list cascade yields is the served document, lower-cased. *)
Lemma whitelist_cascade_document {engine : Engine}
    (env : Env) (w0 w1 : World) (l : list string) :
  firstNonEmpty
    [whitelistMethod1 env []; whitelistMethod2 env []; whitelistMethod3 env []]
    w0 l w1 ->
  l = List.map toLowerCase (allowListDocument env w0).
Proof.
  unfold allowListDocument. intros H.
  inversion H as [| m ms wa wb la Hrun Hne | m ms wa wb wc la Hrun Hrest]; subst.
  - rewrite whitelistMethod1_eq in Hrun. inversion Hrun; subst.
    rewrite firstNonEmptyOf_head by (eapply map_not_nil; eauto). reflexivity.
  - rewrite whitelistMethod1_eq in Hrun. inversion Hrun as [[Hl Hw]].
    apply map_nil_inv in Hl. rewrite Hl, firstNonEmptyOf_skip.
    clear Hrun H.
    inversion Hrest as [| m ms wa wd la Hrun Hne | m ms wa wd we la Hrun Hrest2]; subst.
    + rewrite whitelistMethod2_eq in Hrun. inversion Hrun; subst. simpl remote.
      rewrite firstNonEmptyOf_head by (eapply map_not_nil; eauto). reflexivity.
    + rewrite whitelistMethod2_eq in Hrun. inversion Hrun as [[Hl2 Hw2]].
      simpl remote in Hl2.
      apply map_nil_inv in Hl2. rewrite Hl2, firstNonEmptyOf_skip.
      clear Hrun Hrest.
      inversion Hrest2 as [| m ms wa wf la Hrun Hne | m ms wa wf wg la Hrun Hrest3]; subst.
      * rewrite whitelistMethod3_eq in Hrun. inversion Hrun; subst. simpl remote.
        rewrite firstNonEmptyOf_head by (eapply map_not_nil; eauto). reflexivity.
      * rewrite whitelistMethod3_eq in Hrun. inversion Hrun as [[Hl3 Hw3]].
        simpl remote in Hl3.
        apply map_nil_inv in Hl3. rewrite Hl3, firstNonEmptyOf_skip.
        inversion Hrest3; subst. reflexivity.
Qed.

Lemma getWhitelistSet_document {engine : Engine} (env : Env) (w w0 : World) :
  getCachedData "whitelist_set" env w = (Val None, w0) ->
  exists w',
    getWhitelistSet env w
      = (Val (list_to_set (List.map toLowerCase (allowListDocument env w))), w').
Proof.
  intros Hmiss.
  destruct (getWhitelistSet_miss env w w0 Hmiss) as (l & w1 & Hfne & Heq).
  apply whitelist_cascade_document in Hfne.
  apply getCachedData_cases in Hmiss. destruct Hmiss as (_ & _ & Hre & _).
  assert (Hdoc : allowListDocument env w0 = allowListDocument env w)
    by (unfold allowListDocument; rewrite Hre; reflexivity).
  rewrite Hdoc in Hfne. subst l. eexists. exact Heq.
Qed.

(** *** The cached allow-list is in lower case *)

Lemma allowCacheLowerCase_frame {engine : Engine} (w w' : World) :
  kv w' !! cacheKeyOf "whitelist_set" = kv w !! cacheKeyOf "whitelist_set" ->
  allowCacheLowerCase w -> allowCacheLowerCase w'.
Proof.
  intros Hk Hinv data ts e Hlook. rewrite Hk in Hlook. eapply Hinv; eauto.
Qed.

Lemma lowerCase_image {engine : Engine} (document : list string) :
  Forall (fun x => toLowerCase x = x) (List.map toLowerCase document).
Proof.
  apply Forall_forall. intros x Hx. apply list_elem_of_In, in_map_iff in Hx.
  destruct Hx as (y & <- & _). apply toLowerCase_idempotent.
Qed.

(** A fetcher of the document [name] writes no entry of the store but its
    own cache entry, and that one with the list the cascade yields. *)
Lemma fetcher_store (name : string) (plan : list (string * option string))
    (ms : list (M (list string))) (env : Env) (w w0 w1 : World) (l : list string) :
  getCachedData name env w = (Val None, w0) ->
  Forall2 requests ms plan ->
  firstNonEmpty ms w0 l w1 ->
  let w' := if isEmpty l then w1 else snd (setCachedData name l env w1) in
  kv w' = kv w
  \/ exists timestamp expires,
       kv w' = <[cacheKeyOf name := mkEntry (CacheRec l timestamp) expires]> (kv w).
Proof.
  intros Hget Hplan Hrun.
  apply getCachedData_cases in Hget. destruct Hget as (_ & Hk0 & _).
  destruct (cascade_frame _ _ _ _ _ Hplan Hrun) as (_ & Hk1 & _).
  destruct l as [| x l]; simpl isEmpty; cbv iota zeta.
  - left. congruence.
  - destruct (setCachedData name (x :: l) env w1) as [o w2] eqn:Hset.
    apply setCachedData_cases in Hset. simpl in Hset.
    destruct Hset as (_ & _ & _ & [(t & _ & _ & Hkv & _) | (Hkv & _)]); simpl snd.
    + right. eexists _, _. rewrite Hkv, Hk1, Hk0. reflexivity.
    + left. congruence.
Qed.

Lemma verifyTurnstile_store (token : option string) (clientIP : string)
    (w w' : World) (o : outcome bool) :
  verifyTurnstile token clientIP w = (o, w') -> kv w' = kv w.
Proof.
  rewrite verifyTurnstile_eq. destruct (truthy token); intros H; inversion H; reflexivity.
Qed.

Lemma getBlacklist_store (env : Env) (w w' : World) (o : outcome (list string))
    (k : string) :
  getBlacklist env w = (o, w') ->
  k <> cacheKeyOf "blacklist" -> kv w' !! k = kv w !! k.
Proof.
  intros Hrun Hk.
  destruct (getCachedData_total "blacklist" env w) as ([c |] & w0 & Hget).
  - rewrite (getBlacklist_hit env w w0 c Hget) in Hrun. inversion Hrun; subst.
    apply getCachedData_cases in Hget. destruct Hget as (_ & -> & _). reflexivity.
  - destruct (getBlacklist_miss env w w0 Hget) as (l & w1 & Hfne & Heq).
    rewrite Heq in Hrun. inversion Hrun; subst.
    destruct (fetcher_store "blacklist" _ _ env w w0 w1 l Hget
                (blacklist_requests env) Hfne) as [-> | (ts & e & ->)];
      [reflexivity | apply lookup_insert_ne; congruence].
Qed.

Lemma pickRandom_store (urls : list string) (w w' : World) (o : outcome (option string)) :
  pickRandom urls w = (o, w') -> kv w' = kv w.
Proof.
  rewrite pickRandom_eq. destruct urls; [intros H; inversion H; reflexivity |].
  cbv zeta. destruct (randoms w); intros H; inversion H; reflexivity.
Qed.

Lemma getRandomRedirectUrl_store (env : Env) (w w' : World)
    (o : outcome (option string)) (k : string) :
  getRandomRedirectUrl env w = (o, w') ->
  k <> cacheKeyOf "redirect_urls" -> kv w' !! k = kv w !! k.
Proof.
  intros Hrun Hk.
  destruct (getCachedData_total "redirect_urls" env w) as ([c |] & w0 & Hget).
  - rewrite (getRandomRedirectUrl_hit env w w0 c Hget) in Hrun.
    apply pickRandom_store in Hrun. rewrite Hrun.
    apply getCachedData_cases in Hget. destruct Hget as (_ & -> & _). reflexivity.
  - destruct (getRandomRedirectUrl_miss env w w0 Hget) as (l & w1 & Hfne & Heq).
    rewrite Heq in Hrun. apply pickRandom_store in Hrun. rewrite Hrun.
    destruct (fetcher_store "redirect_urls" _ _ env w w0 w1 l Hget
                (urls_requests env) Hfne) as [-> | (ts & e & ->)];
      [reflexivity | apply lookup_insert_ne; congruence].
Qed.

(** The allow-list fetcher caches nothing but a lower-cased list. *)
Lemma getWhitelistSet_store {engine : Engine} (env : Env) (w w' : World)
    (o : outcome (gset string)) :
  getWhitelistSet env w = (o, w') ->
  allowCacheLowerCase w -> allowCacheLowerCase w'.
Proof.
  intros Hrun Hinv.
  destruct (getCachedData_total "whitelist_set" env w) as ([c |] & w0 & Hget).
  - rewrite (getWhitelistSet_hit env w w0 c Hget) in Hrun. inversion Hrun; subst.
    apply getCachedData_cases in Hget. destruct Hget as (_ & Hk & _).
    eapply allowCacheLowerCase_frame; [rewrite Hk; reflexivity | exact Hinv].
  - destruct (getWhitelistSet_miss env w w0 Hget) as (l & w1 & Hfne & Heq).
    rewrite Heq in Hrun. inversion Hrun; subst.
    destruct (fetcher_store "whitelist_set" _ _ env w w0 w1 l Hget
                (whitelist_requests env) Hfne) as [Hk | (ts & e & Hk)].
    + eapply allowCacheLowerCase_frame; [rewrite Hk; reflexivity | exact Hinv].
    + intros data ts' e' Hlook. rewrite Hk, lookup_insert_eq in Hlook.
      inversion Hlook; subst.
      apply whitelist_cascade_document in Hfne. rewrite Hfne.
      apply lowerCase_image.
Qed.

Lemma checkRateLimit_store (request : Request) (env : Env) (w w' : World)
    (o : outcome RateResult) (key : string) :
  checkRateLimit request env w = (o, w') ->
  kv w' !! cacheKeyOf key = kv w !! cacheKeyOf key.
Proof.
  intros H. apply checkRateLimit_cases in H. simpl in H.
  destruct H as [(_ & _ & -> & _) | [(t & w1 & _ & _ & _ & _ & -> & _) | (_ & ->)]];
    try reflexivity.
  apply lookup_insert_ne. apply rate_key_not_cache_key.
Qed.

Lemma handleValidation_store {engine : Engine} (request : Request) (env : Env)
    (w w' : World) (o : outcome Response) :
  handleValidation request env w = (o, w') ->
  allowCacheLowerCase w -> allowCacheLowerCase w'.
Proof.
  intros Hrun Hinv.
  destruct (String.eqb_spec (method request) "POST") as [Hm | Hm].
  2:{ rewrite handleValidation_not_post in Hrun by exact Hm.
      inversion Hrun; subst. exact Hinv. }
  destruct (requestJson request) as [form |] eqn:Hb.
  2:{ rewrite handleValidation_bad_json in Hrun by assumption.
      inversion Hrun; subst. exact Hinv. }
  destruct (verifyTurnstile_total (turnstileToken form) (clientIPOf request) w)
    as (valid & w1 & Hv).
  destruct (getBlacklist_total env w1) as (bl & w2 & Hbl).
  destruct (getWhitelistSet_total env w2) as (wl & w3 & Hwl).
  destruct (getRandomRedirectUrl_total env w3) as (u & w4 & Hr).
  rewrite (handleValidation_stages request env form w w1 w2 w3 w4 valid bl wl u
             Hm Hb Hv Hbl Hwl Hr) in Hrun.
  assert (H1 : allowCacheLowerCase w1).
  { eapply allowCacheLowerCase_frame; [| exact Hinv].
    rewrite (verifyTurnstile_store _ _ _ _ _ Hv). reflexivity. }
  assert (H2 : allowCacheLowerCase w2).
  { eapply allowCacheLowerCase_frame; [| exact H1].
    eapply getBlacklist_store; [exact Hbl | discriminate]. }
  assert (H3 : allowCacheLowerCase w3) by (eapply getWhitelistSet_store; eauto).
  assert (H4 : allowCacheLowerCase w4).
  { eapply allowCacheLowerCase_frame; [| exact H3].
    eapply getRandomRedirectUrl_store; [exact Hr | discriminate]. }
  destruct (honeypotFilled form); [inversion Hrun; subst; exact Hinv |].
  destruct (negb (wellFormed form)); [inversion Hrun; subst; exact Hinv |].
  destruct (negb valid); [inversion Hrun; subst; exact H1 |].
  destruct (includes bl (clientIPOf request)); [inversion Hrun; subst; exact H2 |].
  destruct (negb (bool_decide _)); [inversion Hrun; subst; exact H3 |].
  destruct (negb (truthy u)); inversion Hrun; subst; exact H4.
Qed.

(** In every world the worker runs in, the cached allow-list is in lower
    case. *)
Lemma reachable_lowerCase {engine : Engine} (w : World) :
  reachable w -> allowCacheLowerCase w.
Proof.
  induction 1 as [w Hk | w w' _ IH Hk | request env w w' o _ IH Hrun
                 | request env w w' o _ IH Hrun].
  - intros data ts e Hlook. rewrite Hk in Hlook. discriminate.
  - eapply allowCacheLowerCase_frame; [rewrite Hk; reflexivity | exact IH].
  - eapply allowCacheLowerCase_frame; [| exact IH].
    eapply checkRateLimit_store. exact Hrun.
  - eapply handleValidation_store; eauto.
Qed.

(** Handling a request leads from a world the worker runs in to another. *)
Lemma fetch_reachable {engine : Engine} (request : Request) (env : Env)
    (w w' : World) (o : outcome Response) :
  reachable w -> fetch request env w = (o, w') -> reachable w'.
Proof.
  intros Hw. unfold fetch, bind.
  destruct (String.eqb (method request) "OPTIONS");
    [intros H; inversion H; subst; exact Hw |].
  destruct (checkRateLimit request env w) as [[r | e] w1] eqn:Hrate.
  2:{ intros H; inversion H; subst. eapply reach_limiter; eauto. }
  assert (Hw1 : reachable w1) by (eapply reach_limiter; eauto).
  assert (Hstatic : forall name, serveStaticFile name w1 = (o, w') -> reachable w').
  { intros name. unfold serveStaticFile.
    destruct (negb (truthy (files name))); intros H; inversion H; subst; exact Hw1. }
  destruct (negb (allowed r)); [intros H; inversion H; subst; exact Hw1 |].
  destruct (_ || _); [apply Hstatic |].
  destruct (String.eqb (pathname request) "/styles.css"); [apply Hstatic |].
  destruct (String.eqb (pathname request) "/script.js"); [apply Hstatic |].
  destruct (String.eqb (pathname request) "/api/validate").
  - intros H. eapply reach_validator; eauto.
  - intros H; inversion H; subst; exact Hw1.
Qed.

(** The set the fetcher returns holds the lower-cased address exactly when
    the list the validator consults holds the address up to letter case. *)
Lemma getWhitelistSet_up_to_case {engine : Engine} (env : Env) (w : World)
    (address : string) :
  allowCacheLowerCase w ->
  exists whitelistSet w',
    getWhitelistSet env w = (Val whitelistSet, w')
    /\ (toLowerCase address ∈ whitelistSet
        <-> listedUpToCase (consultedAllowList env w) address).
Proof.
  intros Hinv. unfold consultedAllowList, listedUpToCase.
  destruct (getCachedData "whitelist_set" env w) as [og w0] eqn:Hget.
  destruct (getCachedData_total "whitelist_set" env w) as (r & w0' & Hget').
  rewrite Hget in Hget'. inversion Hget'; subst og w0'. simpl fst.
  destruct r as [c |].
  - exists (list_to_set c), w0. split; [apply getWhitelistSet_hit; exact Hget |].
    assert (Hlow : Forall (fun x => toLowerCase x = x) c).
    { apply getCachedData_cases in Hget.
      destruct Hget as (_ & _ & _ & _ & _ & _ & [[_ Ho] | [_ Ho]]);
        [discriminate |].
      unfold kvLive in Ho.
      destruct (kv w !! cacheKeyOf "whitelist_set") as [[v e] |] eqn:Hlook;
        [| discriminate].
      cbn [kvExpires kvVal] in Ho. destruct (clock w <? e); [| discriminate].
      destruct v as [rs | data ts]; [discriminate |].
      destruct (ts =? 0); [discriminate |].
      destruct (num_lt _ _); [| discriminate].
      inversion Ho; subst. eapply Hinv. exact Hlook. }
    rewrite elem_of_list_to_set, list_elem_of_In. split.
    + intros Hin. exists (toLowerCase address).
      split; [exact Hin | apply toLowerCase_idempotent].
    + intros (listed & Hin & Hcase).
      rewrite Forall_forall in Hlow.
      rewrite <- Hcase, (Hlow listed) by (apply list_elem_of_In; exact Hin).
      exact Hin.
  - destruct (getWhitelistSet_document env w w0 Hget) as (w' & Hdoc).
    eexists _, w'. split; [exact Hdoc |].
    rewrite elem_of_list_to_set, list_elem_of_In, in_map_iff. split.
    + intros (listed & Hcase & Hin). exists listed. auto.
    + intros (listed & Hin & Hcase). exists listed. auto.
Qed.

(** C7: the allow-list is matched without regard to letter case.  For a
    request that has passed the honeypot, presence, format, bot-verification
    and deny-list checks, the lower-cased email is in the set the fetcher
    returns exactly when the list the validator consults, cached or freshly
    served, holds an entry equal to the email up to letter case.  When it
    does, the allow-list check passes and the answer is the one of the
    redirect step: the success with the drawn target followed by the email,
    or the 500 response when there is no target.  When it does not, the
    answer is the allow-list denial. *)
Theorem allowlist_case_insensitive {engine : Engine} (request : Request) (env : Env)
    (form : ValidationBody) (w w1 w2 : World) (blacklist : list string) :
  reachable w ->
  method request = "POST" ->
  requestJson request = Some form ->
  honeypotFilled form = false ->
  wellFormed form = true ->
  verifyTurnstile (turnstileToken form) (clientIPOf request) w = (Val true, w1) ->
  getBlacklist env w1 = (Val blacklist, w2) ->
  includes blacklist (clientIPOf request) = false ->
  exists whitelistSet w3 redirectUrl w4,
    getWhitelistSet env w2 = (Val whitelistSet, w3)
    /\ getRandomRedirectUrl env w3 = (Val redirectUrl, w4)
    /\ (toLowerCase (interp (email form)) ∈ whitelistSet
        <-> listedUpToCase (consultedAllowList env w2) (interp (email form)))
    /\ (listedUpToCase (consultedAllowList env w2) (interp (email form)) ->
          handleValidation request env w
            = (Val (if truthy redirectUrl
                    then success (interp redirectUrl +:+ interp (email form))
                    else noRedirects), w4))
    /\ (~ listedUpToCase (consultedAllowList env w2) (interp (email form)) ->
          handleValidation request env w = (Val notOnList, w3)).
Proof.
  intros Hreach Hm Hb Hh Hwf Hv Hbl Hinc.
  assert (Hinv : allowCacheLowerCase w2).
  { apply reachable_lowerCase in Hreach.
    eapply allowCacheLowerCase_frame with (w := w1).
    - eapply getBlacklist_store; [exact Hbl | discriminate].
    - eapply allowCacheLowerCase_frame; [| exact Hreach].
      rewrite (verifyTurnstile_store _ _ _ _ _ Hv). reflexivity. }
  destruct (getWhitelistSet_up_to_case env w2 (interp (email form)) Hinv)
    as (whitelistSet & w3 & Hwl & Hiff).
  destruct (getRandomRedirectUrl_total env w3) as (u & w4 & Hr).
  exists whitelistSet, w3, u, w4.
  split; [exact Hwl |]. split; [exact Hr |]. split; [exact Hiff |].
  pose proof (handleValidation_stages request env form w w1 w2 w3 w4 true
                blacklist whitelistSet u Hm Hb Hv Hbl Hwl Hr) as Heq.
  rewrite Hh, Hwf, Hinc in Heq. cbn [negb] in Heq.
  split.
  - intros Hlisted. apply Hiff in Hlisted.
    rewrite bool_decide_eq_true_2 in Heq by exact Hlisted.
    cbn [negb] in Heq. rewrite Heq. destruct (truthy u); reflexivity.
  - intros Hnot.
    rewrite bool_decide_eq_false_2 in Heq by (intros Hin; apply Hnot, Hiff, Hin).
    exact Heq.
Qed.

(** ** Routing *)



(** ** Worked instances *)

(** The scenario of an allow-listed address: a valid token, an empty
    honeypot, a caller that is not deny-listed and the pool
    [https://x/r?u=]. *)
Example validation_scenario :
  fst (handleValidation (postFrom "203.0.113.7" "admin@co.com" None) env0 textWorld)
    = Val (success "https://x/r?u=admin@co.com").
Proof. vm_compute. reflexivity. Qed.

Ltac by_running := vm_compute; reflexivity.

Lemma honeypot_rejects_first_witness :
  handleValidation (postFrom "203.0.113.7" "admin@co.com" (Some "x")) env0 textWorld
    = (Val accessDenied, textWorld)
  /\ status accessDenied = 403.
Proof.
  apply (honeypot_rejects_first (postFrom "203.0.113.7" "admin@co.com" (Some "x"))
           env0 (mkJsonObject (Some "admin@co.com") (Some "token") (Text "x")) "x"
           textWorld);
    [reflexivity | reflexivity | reflexivity | vm_compute; discriminate].
Defined.

(** C8 as stated fails for a honeypot that is not a string: a number other
    than zero, [true], an array or an object is present and not blank, and
    the validator answers it with the 500 "Internal server error" instead of
    the access-denied response. *)
Lemma honeypot_not_text_counterexample :
  let request := postWith "203.0.113.7" "admin@co.com" (NotText true) in
  handleValidation request env0 textWorld
    = (Val (failure "Internal server error" 500), textWorld)
  /\ failure "Internal server error" 500 <> accessDenied.
Proof.
  split; [by_running | discriminate].
Qed.

(** A honeypot of white space only is blank, also when the white space is
    not ASCII: with the no-break space U+00A0 the validation goes on to the
    redirect. *)
Example blank_honeypot_scenario :
  let nbsp := String "194" (String "160" EmptyString) in
  fst (handleValidation (postFrom "203.0.113.7" "admin@co.com" (Some (" " +:+ nbsp)))
         env0 textWorld)
    = Val (success "https://x/r?u=admin@co.com").
Proof. vm_compute. reflexivity. Qed.

Lemma denial_responses_witness :
  let denied := postFrom "203.0.113.7" "eve@co.com" None in
  let unknown := postFrom "198.51.100.2" "eve@co.com" None in
  let w := listsWorld alwaysHuman in
  handleValidation denied env0 w = (Val accessDenied, afterDenyList denied w)
  /\ handleValidation unknown env0 w = (Val notOnList, afterAllowList unknown w)
  /\ handleValidation unknown env0 (listsWorld noVerdict)
       = (Val verificationFailed, afterVerify unknown (listsWorld noVerdict)).
Proof.
  intros denied unknown w.
  set (form := mkBody (Some "eve@co.com") (Some "token") None).
  split; [| split].
  - assert (Hv : verifyTurnstile (turnstileToken form) (clientIPOf denied) w
                 = (Val true, afterVerify denied w)) by by_running.
    assert (Hbl : getBlacklist env0 (afterVerify denied w)
                  = (Val ["203.0.113.7"], afterDenyList denied w)) by by_running.
    assert (Hwl : getWhitelistSet env0 (afterDenyList denied w)
                  = (Val (list_to_set ["admin@co.com"]), afterAllowList denied w))
      by by_running.
    destruct (denial_responses denied env0 form w _ _ _ _ _ _
                eq_refl eq_refl Hv Hbl Hwl) as (_ & Hsteps & _).
    destruct (Hsteps eq_refl eq_refl) as (_ & Hdeny & _).
    apply Hdeny; reflexivity.
  - assert (Hv : verifyTurnstile (turnstileToken form) (clientIPOf unknown) w
                 = (Val true, afterVerify unknown w)) by by_running.
    assert (Hbl : getBlacklist env0 (afterVerify unknown w)
                  = (Val ["203.0.113.7"], afterDenyList unknown w)) by by_running.
    assert (Hwl : getWhitelistSet env0 (afterDenyList unknown w)
                  = (Val (list_to_set ["admin@co.com"]), afterAllowList unknown w))
      by by_running.
    destruct (denial_responses unknown env0 form w _ _ _ _ _ _
                eq_refl eq_refl Hv Hbl Hwl) as (_ & Hsteps & _).
    destruct (Hsteps eq_refl eq_refl) as (_ & _ & Hmiss).
    apply Hmiss; try reflexivity.
    intros Hin. apply elem_of_list_to_set in Hin.
    apply list_elem_of_In in Hin. simpl in Hin.
    destruct Hin as [Hbad | []]. vm_compute in Hbad. discriminate.
  - set (w' := listsWorld noVerdict).
    assert (Hv : verifyTurnstile (turnstileToken form) (clientIPOf unknown) w'
                 = (Val false, afterVerify unknown w')) by by_running.
    assert (Hbl : getBlacklist env0 (afterVerify unknown w')
                  = (Val ["203.0.113.7"], afterDenyList unknown w')) by by_running.
    assert (Hwl : getWhitelistSet env0 (afterDenyList unknown w')
                  = (Val (list_to_set ["admin@co.com"]), afterAllowList unknown w'))
      by by_running.
    destruct (denial_responses unknown env0 form w' _ _ _ _ _ _
                eq_refl eq_refl Hv Hbl Hwl) as (_ & Hsteps & _).
    destruct (Hsteps eq_refl eq_refl) as (Hbot & _).
    apply Hbot; reflexivity.
Defined.

(** C1 as stated fails: in one world, a deny-listed caller and a caller whose
    email is not on the allow-list get responses with different bodies, and a
    caller whose bot verification fails gets status 400, not 403. *)
Lemma denial_shapes_counterexample :
  let w := listsWorld alwaysHuman in
  let denyHit := fst (handleValidation (postFrom "203.0.113.7" "eve@co.com" None) env0 w) in
  let allowMiss := fst (handleValidation (postFrom "198.51.100.2" "eve@co.com" None) env0 w) in
  let botFailure :=
    fst (handleValidation (postFrom "198.51.100.2" "eve@co.com" None) env0
           (listsWorld noVerdict)) in
  denyHit = Val accessDenied
  /\ allowMiss = Val notOnList
  /\ botFailure = Val verificationFailed
  /\ body accessDenied <> body notOnList
  /\ status verificationFailed <> status accessDenied.
Proof.
  repeat split; try (vm_compute; reflexivity); vm_compute; discriminate.
Qed.

Lemma fetcher_first_non_empty_witness :
  let w0 := log (KvGet "cache:whitelist_set") textWorld in
  exists l w1,
    firstNonEmpty
      [whitelistMethod1 env0 []; whitelistMethod2 env0 []; whitelistMethod3 env0 []]
      w0 l w1
    /\ getWhitelistSet env0 textWorld =
         (Val (list_to_set l),
          if isEmpty l then w1 else snd (setCachedData "whitelist_set" l env0 w1)).
Proof.
  intros w0.
  assert (Hmiss : getCachedData "whitelist_set" env0 textWorld = (Val None, w0))
    by by_running.
  destruct (fetcher_first_non_empty env0 textWorld w0) as (_ & _ & Hallow & _).
  exact (Hallow Hmiss).
Defined.

(** C6 as stated fails: the first allow-list method gets a successful
    response whose content parses (to an object without entries), and the
    fetcher still requests the second and the third address and returns what
    the third one serves. *)
Lemma fetcher_skips_counterexample :
  remote textWorld (apiUrl env0 "list.json") (authorizationOf env0)
    = Reply (mkFetchResponse true 200 envelopeText (JsonContents (B64Text "{}" (Some []))))
  /\ fst (getWhitelistSet env0 textWorld)
       = Val (list_to_set ["user@example.com"; "admin@co.com"])
  /\ fetches (trace (snd (getWhitelistSet env0 textWorld)))
       = [apiUrl env0 "list.json"; rawUrl env0 "list.json"; rawUrl env0 "emails.txt"].
Proof.
  split; [| split]; by_running.
Qed.

Lemma allowlist_case_insensitive_witness :
  let request := postFrom "203.0.113.7" "user@example.com" None in
  In "User@Example.com" (consultedAllowList env0 (afterDenyList request textWorld))
  /\ exists w4,
       handleValidation request env0 textWorld
         = (Val (success "https://x/r?u=user@example.com"), w4).
Proof.
  intros request.
  set (form := mkBody (Some "user@example.com") (Some "token") None).
  assert (Hstart : reachable textWorld) by (apply reach_start; reflexivity).
  assert (Hv : verifyTurnstile (turnstileToken form) (clientIPOf request) textWorld
               = (Val true, afterVerify request textWorld)) by by_running.
  assert (Hbl : getBlacklist env0 (afterVerify request textWorld)
                = (Val [], afterDenyList request textWorld)) by by_running.
  assert (Hin : In "User@Example.com"
                   (consultedAllowList env0 (afterDenyList request textWorld)))
    by (vm_compute; left; reflexivity).
  assert (Hlisted : listedUpToCase
                      (consultedAllowList env0 (afterDenyList request textWorld))
                      (interp (email form)))
    by (exists "User@Example.com"; split; [exact Hin | reflexivity]).
  split; [exact Hin |].
  destruct (allowlist_case_insensitive request env0 form textWorld _ _ []
              Hstart eq_refl eq_refl eq_refl eq_refl Hv Hbl eq_refl)
    as (whitelistSet & w3 & u & w4 & Hwl & Hr & _ & Hyes & _).
  assert (Hw3 : w3 = afterAllowList request textWorld)
    by (unfold afterAllowList; rewrite Hwl; reflexivity).
  rewrite Hw3 in Hr. vm_compute in Hr. inversion Hr as [[Hu Hw4]].
  exists w4. rewrite (Hyes Hlisted), <- Hu. reflexivity.
Defined.

Lemma redirect_or_server_error_witness :
  let request := postFrom "203.0.113.7" "Admin@Co.com" None in
  exists w4,
    handleValidation request env0 textWorld
      = (Val (success "https://x/r?u=Admin@Co.com"), w4).
Proof.
  intros request.
  set (form := mkBody (Some "Admin@Co.com") (Some "token") None).
  set (w3 := afterAllowList request textWorld).
  set (w0 := log (KvGet "cache:redirect_urls") w3).
  set (w1 := log (HttpGet (rawUrl env0 "urls.txt") None)
               (log (HttpGet (rawUrl env0 "url.json") None)
                  (log (HttpGet (apiUrl env0 "url.json") None) w0))).
  assert (Hv : verifyTurnstile (turnstileToken form) (clientIPOf request) textWorld
               = (Val true, afterVerify request textWorld)) by by_running.
  assert (Hbl : getBlacklist env0 (afterVerify request textWorld)
                = (Val [], afterDenyList request textWorld)) by by_running.
  assert (Hwl : getWhitelistSet env0 (afterDenyList request textWorld)
                = (Val (list_to_set ["user@example.com"; "admin@co.com"]), w3))
    by by_running.
  assert (Hin : toLowerCase (interp (email form))
                ∈ (list_to_set ["user@example.com"; "admin@co.com"] : gset string)).
  { apply elem_of_list_to_set, list_elem_of_In. right. left. reflexivity. }
  assert (Hpool : redirectPool env0 w3 ["https://x/r?u="]
                    (snd (setCachedData "redirect_urls" ["https://x/r?u="] env0 w1))).
  { apply (pool_fetched env0 w3 ["https://x/r?u="] w0 w1); [by_running |].
    apply fne_next with (w1 := log (HttpGet (apiUrl env0 "url.json") None) w0);
      [by_running |].
    apply fne_next
      with (w1 := log (HttpGet (rawUrl env0 "url.json") None)
                    (log (HttpGet (apiUrl env0 "url.json") None) w0));
      [by_running |].
    apply fne_wins; [by_running | discriminate]. }
  destruct (redirect_or_server_error request env0 form textWorld _ _ _ _ [] _ _
              eq_refl eq_refl eq_refl eq_refl Hv Hbl eq_refl Hwl Hin Hpool)
    as (_ & Hdraw).
  destruct (Hdraw ltac:(discriminate)) as (u & w4 & Hu & Hok & _).
  destruct Hu as [<- | []].
  exists w4. apply Hok. discriminate.
Defined.

(** C9 as stated fails for a pool whose drawn entry is the empty string: all
    access checks pass, the pool served is not empty, and the response is the
    500 rather than a success. *)
Lemma blank_target_counterexample :
  let request := postFrom "203.0.113.7" "admin@co.com" None in
  rawList "urls" (remote blankUrlWorld (rawUrl env0 "url.json") None) = [EmptyString]
  /\ fst (getWhitelistSet env0 (afterDenyList request blankUrlWorld))
       = Val (list_to_set ["admin@co.com"])
  /\ fst (handleValidation request env0 blankUrlWorld) = Val noRedirects
  /\ status noRedirects = 500.
Proof.
  repeat split; by_running.
Qed.


(** * Further properties *)

(** ** Key spaces of the store *)

(** X1: a call of the limiter changes no entry of the store but the
    client's own record; in particular it changes no cache entry. *)
Theorem checkRateLimit_own_key (request : Request) (env : Env) (w w' : World)
    (o : outcome RateResult) (k : string) :
  checkRateLimit request env w = (o, w') ->
  k <> rateKey request ->
  kv w' !! k = kv w !! k
  /\ forall name, kv w' !! cacheKeyOf name = kv w !! cacheKeyOf name.
Proof.
  intros H Hk. apply checkRateLimit_cases in H. simpl in H.
  assert (Hother : forall k', k' <> rateKey request -> kv w' !! k' = kv w !! k').
  { intros k' Hk'.
    destruct H as [(_ & _ & Hkv & _) | [(t & w1 & _ & _ & _ & _ & Hkv & _) | (_ & Hkv)]];
      rewrite Hkv; [reflexivity | | reflexivity].
    apply lookup_insert_ne. congruence. }
  split; [apply Hother; exact Hk |].
  intros name. apply Hother. intros Heq.
  exact (rate_key_not_cache_key request name (eq_sym Heq)).
Qed.

Lemma checkRateLimit_own_key_witness :
  let run := checkRateLimit sampleGet (sampleEnv "10") (sampleWorld staleStore []) in
  kv (snd run) !! "cache:whitelist_set" = staleStore !! "cache:whitelist_set".
Proof.
  intros run.
  destruct (checkRateLimit_own_key sampleGet (sampleEnv "10")
              (sampleWorld staleStore []) (snd run) (fst run) "cache:whitelist_set")
    as [Hk _].
  - apply surjective_pairing.
  - vm_compute. discriminate.
  - exact Hk.
Defined.

(** X2: a cache write never raises and changes no entry of the store but
    its own cache entry, so it changes no rate record; when the store call
    fails the store is left as it was. *)
Theorem setCachedData_own_key (key : string) (data : list string) (env : Env)
    (w w' : World) (o : outcome unit) :
  setCachedData key data env w = (o, w') ->
  o = Val tt
  /\ (forall k, k <> cacheKeyOf key -> kv w' !! k = kv w !! k)
  /\ (forall request, kv w' !! rateKey request = kv w !! rateKey request)
  /\ (storeFailed w w' -> kv w' = kv w).
Proof.
  intros H. apply setCachedData_cases in H. simpl in H.
  destruct H as (Ho & _ & _ & Hk).
  assert (Hother : forall k, k <> cacheKeyOf key -> kv w' !! k = kv w !! k).
  { intros k Hne. destruct Hk as [(t & _ & _ & Hkv & _) | (Hkv & _)]; rewrite Hkv.
    - apply lookup_insert_ne. congruence.
    - reflexivity. }
  split; [exact Ho |]. split; [exact Hother |]. split.
  - intros request. apply Hother. apply rate_key_not_cache_key.
  - intros Hfail. destruct Hk as [(t & _ & _ & _ & Hcons) | (Hkv & _)].
    + exfalso. exact (no_failure_one _ _ Hcons Hfail).
    + exact Hkv.
Qed.

Lemma setCachedData_own_key_witness :
  let run := setCachedData "blacklist" ["203.0.113.7"] env0 (sampleWorld busyStore [true]) in
  fst run = Val tt /\ kv (snd run) = busyStore.
Proof.
  intros run.
  assert (Hfail : storeFailed (sampleWorld busyStore [true]) (snd run)).
  { exists [true]. split; [reflexivity | left; reflexivity]. }
  destruct (setCachedData_own_key "blacklist" ["203.0.113.7"] env0
              (sampleWorld busyStore [true]) (snd run) (fst run)
              (surjective_pairing run)) as (Ho & _ & _ & Hk).
  split; [exact Ho | exact (Hk Hfail)].
Defined.

(** ** Rate limiter: what is stored and what is reported *)

(** X3: whenever a call of the limiter changes the store, it has stored
    for the client the in-window time stamps followed by the current second,
    at most [m] of them for a cap [m], to expire [window + 60] seconds
    later, and it reports [remaining = m - count], which is not negative.
    The cap and the window are safe integers and the clock is a time value,
    so every number the call computes is a safe integer. *)
Theorem checkRateLimit_stores_bounded (request : Request) (env : Env)
    (w w' : World) (o : outcome RateResult) (m win : Z) :
  parseInt (orElse (RATE_LIMIT_MAX_REQUESTS env) "10") = Int m ->
  parseInt (orElse (RATE_LIMIT_WINDOW env) "60") = Int win ->
  isSafeInteger m ->
  isSafeInteger (win + 60) ->
  0 <= clock w <= maxTimeValue ->
  checkRateLimit request env w = (o, w') ->
  kv w' <> kv w ->
  exists rs,
    rs = (inWindow request env w ++ [clock w / 1000])%list
    /\ kv w' !! rateKey request
         = Some (mkEntry (RateRec rs) (clock w + (win + 60) * 1000))
    /\ lengthZ rs <= m
    /\ o = Val (mkRate true (Int (m - lengthZ rs)))
    /\ 0 <= m - lengthZ rs
    /\ isSafeInteger (clock w / 1000 - win)
    /\ isSafeInteger (lengthZ rs)
    /\ isSafeInteger (m - lengthZ rs).
Proof.
  intros Hmax Hwindow Hm Hw60 Hclock H Hchanged.
  apply checkRateLimit_cases in H. simpl in H.
  destruct H as [(_ & _ & Hkv & _)
                | [(t & w1 & Ho & Hge & Hwin & Ht & Hkv & _) | (_ & Hkv)]];
    try contradiction.
  rewrite Hmax in Ho, Hge. simpl in Ho, Hge.
  rewrite Hwindow in Hwin. inversion Hwin; subst t.
  apply Z.leb_gt in Hge.
  exists (inWindow request env w ++ [clock w / 1000])%list.
  assert (Hlen : lengthZ (inWindow request env w ++ [clock w / 1000])%list
                 = lengthZ (inWindow request env w) + 1).
  { unfold lengthZ. rewrite length_app. simpl. lia. }
  assert (Hpos : 0 <= lengthZ (inWindow request env w)) by (unfold lengthZ; lia).
  assert (Hnow : 0 <= clock w / 1000 <= maxTimeValue).
  { split; [apply Z.div_pos; lia |].
    apply Z.le_trans with (m := clock w); [| lia].
    apply Z.div_le_upper_bound; lia. }
  unfold isSafeInteger, MAX_SAFE_INTEGER, maxTimeValue in *.
  split; [reflexivity |]. split; [rewrite Hkv; apply lookup_insert_eq |].
  split; [lia |]. split; [exact Ho |]. repeat split; lia.
Qed.

Lemma checkRateLimit_stores_bounded_witness :
  let w := sampleWorld busyStore [] in
  exists w',
    checkRateLimit sampleGet (sampleEnv "2") w = (Val (mkRate true (Int 0)), w')
    /\ kv w' !! "rate_limit:203.0.113.7"
         = Some (mkEntry (RateRec [1700000000; 1700000000]) 1700000120000).
Proof.
  intros w.
  set (run := checkRateLimit sampleGet (sampleEnv "2") w).
  assert (Hchanged : kv (snd run) <> kv w).
  { intros Heq. apply (f_equal (fun s => s !! "rate_limit:203.0.113.7")) in Heq.
    vm_compute in Heq. discriminate. }
  assert (Hm : isSafeInteger 2) by (unfold isSafeInteger, MAX_SAFE_INTEGER; lia).
  assert (Hw60 : isSafeInteger (60 + 60))
    by (unfold isSafeInteger, MAX_SAFE_INTEGER; lia).
  assert (Hclock : 0 <= clock w <= maxTimeValue)
    by (unfold maxTimeValue; simpl; lia).
  destruct (checkRateLimit_stores_bounded sampleGet (sampleEnv "2") w (snd run)
              (fst run) 2 60 eq_refl eq_refl Hm Hw60 Hclock
              (surjective_pairing run) Hchanged)
    as (rs & Hrs & Hkv & _ & Ho & _).
  assert (Hval : rs = [1700000000; 1700000000]) by (rewrite Hrs; by_running).
  subst rs. exists (snd run). split.
  - rewrite (surjective_pairing run). rewrite Ho. reflexivity.
  - exact Hkv.
Defined.

(** X4: a cap that [parseInt] cannot read switches the limiter off.  When
    [RATE_LIMIT_MAX_REQUESTS] parses to [NaN] no call is ever rejected,
    whatever the store holds. *)
Theorem checkRateLimit_unreadable_cap (request : Request) (env : Env)
    (w w' : World) (r : RateResult) :
  parseInt (orElse (RATE_LIMIT_MAX_REQUESTS env) "10") = NaN ->
  checkRateLimit request env w = (Val r, w') ->
  allowed r = true.
Proof.
  intros Hnan H. apply checkRateLimit_cases in H. simpl in H.
  destruct H as [(_ & Hge & _) | [(t & w1 & Ho & _) | (Ho & _)]].
  - rewrite Hnan in Hge. discriminate.
  - inversion Ho. reflexivity.
  - inversion Ho. reflexivity.
Qed.

Lemma checkRateLimit_unreadable_cap_witness :
  let run := checkRateLimit sampleGet (sampleEnv "ten") (sampleWorld busyStore []) in
  exists r, fst run = Val r /\ allowed r = true.
Proof.
  intros run.
  assert (Hrun : run = (Val (mkRate true NaN), snd run)) by by_running.
  exists (mkRate true NaN). split; [rewrite Hrun; reflexivity |].
  exact (checkRateLimit_unreadable_cap sampleGet (sampleEnv "ten")
           (sampleWorld busyStore []) (snd run) (mkRate true NaN) eq_refl Hrun).
Defined.

(** ** Cache layer: round trip and degenerate time-to-live *)

(** X5: a payload written at clock reading [clock w] with the store
    reachable is read back unchanged at every later reading less than
    [ttl * 1000] ms away, and is absent from then on. *)
Theorem cache_round_trip (key : string) (data : list string) (env : Env)
    (w : World) (ttl t : Z) :
  parseInt (orElse (CACHE_TTL env) "300") = Int ttl ->
  0 <= ttl -> kvFaults w = [] -> clock w <> 0 -> clock w <= t ->
  let w1 := setClock t (snd (setCachedData key data env w)) in
  (t - clock w < ttl * 1000 -> fst (getCachedData key env w1) = Val (Some data))
  /\ (ttl * 1000 <= t - clock w -> fst (getCachedData key env w1) = Val None).
Proof.
  intros Httl Hpos Hf Hnz Hle w1.
  destruct (setCachedData_getCachedData key data env w ttl t Httl Hpos Hf Hnz Hle)
    as [Hget _].
  fold w1 in Hget. rewrite Hget. split; intros Hage.
  - destruct (Z.ltb_spec (t - clock w) (ttl * 1000)); [reflexivity | lia].
  - destruct (Z.ltb_spec (t - clock w) (ttl * 1000)); [lia | reflexivity].
Qed.

Lemma cache_round_trip_witness :
  let w1 := setClock 1700000299999
              (snd (setCachedData "redirect_urls" ["https://x/r?u="] env0
                      (sampleWorld ∅ []))) in
  fst (getCachedData "redirect_urls" env0 w1) = Val (Some ["https://x/r?u="]).
Proof.
  intros w1.
  destruct (cache_round_trip "redirect_urls" ["https://x/r?u="] env0
              (sampleWorld ∅ []) 300 1700000299999 eq_refl) as [Hhit _];
    [lia | reflexivity | discriminate | simpl; lia |].
  apply Hhit. simpl. lia.
Defined.

(** X6: a time-to-live that [parseInt] cannot read, or one that is not
    positive, switches the cache off: with no entry stamped later than the
    clock, every read is absent. *)
Theorem getCachedData_ttl_disabled (key : string) (env : Env) (w : World) :
  (parseInt (orElse (CACHE_TTL env) "300") = NaN
   \/ exists t, parseInt (orElse (CACHE_TTL env) "300") = Int t /\ t <= 0) ->
  (forall data ts, kvLive w (cacheKeyOf key) = Some (CacheRec data ts) ->
                   ts <= clock w) ->
  fst (getCachedData key env w) = Val None.
Proof.
  intros Httl Hpast.
  destruct (getCachedData key env w) as [o w'] eqn:H.
  apply getCachedData_cases in H.
  destruct H as (_ & _ & _ & _ & _ & _ & [[_ ->] | [_ ->]]); [reflexivity |].
  simpl fst.
  destruct (kvLive w (cacheKeyOf key)) as [[rs | data ts] |] eqn:Hlive;
    try reflexivity.
  destruct (ts =? 0); [reflexivity |].
  destruct Httl as [-> | (t & -> & Ht)]; [reflexivity |].
  simpl. specialize (Hpast data ts eq_refl).
  destruct (Z.ltb_spec (clock w - ts) (t * 1000)); [lia | reflexivity].
Qed.

Lemma getCachedData_ttl_disabled_witness :
  fst (getCachedData "whitelist_set"
         (mkEnv None None (Some "5 minutes off") None None None None)
         (setClock 1699999700001 (sampleWorld staleStore [])))
    = Val (Some ["admin@co.com"])
  /\ fst (getCachedData "whitelist_set"
            (mkEnv None None (Some "off") None None None None)
            (setClock 1699999700001 (sampleWorld staleStore [])))
       = Val None.
Proof.
  split; [by_running |].
  apply getCachedData_ttl_disabled.
  - left. reflexivity.
  - intros data ts Hlive. vm_compute in Hlive. inversion Hlive; subst.
    vm_compute. discriminate.
Defined.

(** ** External calls of the fetchers *)

(** The trace after a cache miss, a cascade and the optional cache write. *)
Lemma fetcher_trace_miss (name : string) (plan : list (string * option string))
    (ms : list (M (list string))) (env : Env) (w w0 w1 : World) (l : list string) :
  getCachedData name env w = (Val None, w0) ->
  Forall2 requests ms plan ->
  firstNonEmpty ms w0 l w1 ->
  exists n puts,
    (n <= length plan)%nat
    /\ trace (if isEmpty l then w1 else snd (setCachedData name l env w1))
       = (trace w ++ fetcherCalls name plan n puts)%list
    /\ atMostOnePut name puts
    /\ (l = [] -> puts = []).
Proof.
  intros Hget Hplan Hrun.
  apply getCachedData_cases in Hget. destruct Hget as (_ & _ & _ & _ & _ & Ht & _).
  destruct (firstNonEmpty_logged ms plan w0 w1 l Hplan Hrun) as (n & Hn & Hw1).
  assert (Ht1 : trace w1
                = (trace w ++ KvGet (cacheKeyOf name)
                     :: List.map httpGetOf (take n plan))%list).
  { rewrite Hw1, logAll_trace, Ht, <- app_assoc. reflexivity. }
  destruct l as [| x l]; simpl isEmpty; cbv iota.
  - exists n, []. unfold fetcherCalls. rewrite app_nil_r.
    split; [exact Hn |]. split; [exact Ht1 |]. split; [left; reflexivity | auto].
  - destruct (setCachedData name (x :: l) env w1) as [o w2] eqn:Hset.
    apply setCachedData_cases in Hset. simpl in Hset.
    destruct Hset as (_ & _ & Ht2 & _). simpl snd.
    eexists n, [_]. unfold fetcherCalls.
    split; [exact Hn |]. split.
    + rewrite Ht2, Ht1, <- app_assoc. reflexivity.
    + split; [right; eauto | discriminate].
Qed.

(** X7: the external calls of the allow-list fetcher are one read of its
    cache entry, then a prefix of the three requests of its plan, in that
    order and with the [Authorization] header on the first one only, then at
    most one write of its cache entry; on a cache hit it makes no request
    and no write. *)
Theorem getWhitelistSet_calls {engine : Engine} (env : Env) (w w' : World)
    (o : outcome (gset string)) :
  getWhitelistSet env w = (o, w') ->
  exists n puts,
    (n <= 3)%nat
    /\ trace w' = (trace w ++ fetcherCalls "whitelist_set" (whitelistPlan env) n puts)%list
    /\ atMostOnePut "whitelist_set" puts
    /\ (forall c w0, getCachedData "whitelist_set" env w = (Val (Some c), w0) ->
                     n = 0%nat /\ puts = []).
Proof.
  intros Hrun.
  destruct (getCachedData_total "whitelist_set" env w) as ([c |] & w0 & Hget).
  - rewrite (getWhitelistSet_hit env w w0 c Hget) in Hrun. inversion Hrun; subst.
    apply getCachedData_cases in Hget. destruct Hget as (_ & _ & _ & _ & _ & Ht & _).
    exists 0%nat, []. split; [lia |]. split; [exact Ht |].
    split; [left; reflexivity | auto].
  - destruct (getWhitelistSet_miss env w w0 Hget) as (l & w1 & Hfne & Heq).
    rewrite Heq in Hrun. inversion Hrun; subst.
    destruct (fetcher_trace_miss "whitelist_set" (whitelistPlan env) _ env w w0 w1 l
                Hget (whitelist_requests env) Hfne) as (n & puts & Hn & Ht & Hp & _).
    exists n, puts. split; [exact Hn |]. split; [exact Ht |]. split; [exact Hp |].
    intros c w2 Hhit. rewrite Hget in Hhit. discriminate.
Qed.

(** X8: the external calls of the deny-list fetcher are one read of its
    cache entry, then a prefix of the two requests of its plan, the
    [Authorization] header on the first one only, then at most one write of
    its cache entry; on a cache hit it makes no request and no write. *)
Theorem getBlacklist_calls (env : Env) (w w' : World)
    (o : outcome (list string)) :
  getBlacklist env w = (o, w') ->
  exists n puts,
    (n <= 2)%nat
    /\ trace w' = (trace w ++ fetcherCalls "blacklist" (blacklistPlan env) n puts)%list
    /\ atMostOnePut "blacklist" puts
    /\ (forall c w0, getCachedData "blacklist" env w = (Val (Some c), w0) ->
                     n = 0%nat /\ puts = []).
Proof.
  intros Hrun.
  destruct (getCachedData_total "blacklist" env w) as ([c |] & w0 & Hget).
  - rewrite (getBlacklist_hit env w w0 c Hget) in Hrun. inversion Hrun; subst.
    apply getCachedData_cases in Hget. destruct Hget as (_ & _ & _ & _ & _ & Ht & _).
    exists 0%nat, []. split; [lia |]. split; [exact Ht |].
    split; [left; reflexivity | auto].
  - destruct (getBlacklist_miss env w w0 Hget) as (l & w1 & Hfne & Heq).
    rewrite Heq in Hrun. inversion Hrun; subst.
    destruct (fetcher_trace_miss "blacklist" (blacklistPlan env) _ env w w0 w1 l
                Hget (blacklist_requests env) Hfne) as (n & puts & Hn & Ht & Hp & _).
    exists n, puts. split; [exact Hn |]. split; [exact Ht |]. split; [exact Hp |].
    intros c w2 Hhit. rewrite Hget in Hhit. discriminate.
Qed.



Lemma getWhitelistSet_calls_witness :
  exists puts,
    trace (snd (getWhitelistSet env0 textWorld))
      = fetcherCalls "whitelist_set" (whitelistPlan env0) 3 puts
    /\ atMostOnePut "whitelist_set" puts.
Proof.
  destruct (getWhitelistSet_calls env0 textWorld _ _
              (surjective_pairing (getWhitelistSet env0 textWorld)))
    as (n & puts & Hn & Ht & Hp & _).
  exists puts. split; [| exact Hp].
  assert (Hthree : n = 3%nat).
  { apply (f_equal fetches) in Ht. unfold fetcherCalls in Ht.
    assert (Hleft : fetches (trace (snd (getWhitelistSet env0 textWorld)))
                    = List.map fst (whitelistPlan env0)) by by_running.
    rewrite Hleft in Ht. simpl trace in Ht. simpl app in Ht. simpl fetches in Ht.
    rewrite fetches_app in Ht.
    assert (Hputs : fetches puts = [])
      by (destruct Hp as [-> | (v & ttl & ->)]; reflexivity).
    rewrite Hputs, app_nil_r in Ht.
    destruct n as [| [| [| [| n]]]]; try lia; vm_compute in Ht; discriminate. }
  subst n. exact Ht.
Defined.

Lemma getBlacklist_calls_witness :
  exists n puts,
    (n <= 2)%nat
    /\ trace (snd (getBlacklist env0 (listsWorld alwaysHuman)))
         = fetcherCalls "blacklist" (blacklistPlan env0) n puts
    /\ n = 0%nat /\ puts = [].
Proof.
  destruct (getBlacklist_calls env0 (listsWorld alwaysHuman) _ _
              (surjective_pairing (getBlacklist env0 (listsWorld alwaysHuman))))
    as (n & puts & Hn & Ht & _ & Hhit).
  destruct (Hhit ["203.0.113.7"]
              (log (KvGet "cache:blacklist") (listsWorld alwaysHuman)))
    as [Hzero Hputs]; [by_running |].
  exists n, puts. split; [exact Hn |]. split; [exact Ht |]. auto.
Defined.


(** ** What the fetchers cache *)

Lemma list_to_set_empty_inv (l : list string) :
  (list_to_set l : gset string) = ∅ -> l = [].
Proof.
  destruct l as [| x l]; [reflexivity |]. intros H.
  assert (Hx : x ∈ (list_to_set (x :: l) : gset string))
    by (apply elem_of_list_to_set; left).
  rewrite H in Hx. set_solver.
Qed.

(** X10: an empty result is never cached.  When the deny-list fetcher
    returns the empty list, or the allow-list fetcher the empty set, the
    store is the one the call started from. *)
Theorem empty_result_not_cached {engine : Engine} (env : Env) (w w' : World) :
  (getBlacklist env w = (Val [], w') -> kv w' = kv w)
  /\ (getWhitelistSet env w = (Val ∅, w') -> kv w' = kv w).
Proof.
  split; intros Hrun.
  - destruct (getCachedData_total "blacklist" env w) as ([c |] & w0 & Hget).
    + rewrite (getBlacklist_hit env w w0 c Hget) in Hrun. inversion Hrun; subst.
      apply getCachedData_cases in Hget. tauto.
    + destruct (getBlacklist_miss env w w0 Hget) as (l & w1 & Hfne & Heq).
      rewrite Heq in Hrun. inversion Hrun; subst. simpl.
      destruct (cascade_frame _ _ _ _ _ (blacklist_requests env) Hfne) as (_ & Hk & _).
      apply getCachedData_cases in Hget. destruct Hget as (_ & Hk0 & _).
      congruence.
  - destruct (getCachedData_total "whitelist_set" env w) as ([c |] & w0 & Hget).
    + rewrite (getWhitelistSet_hit env w w0 c Hget) in Hrun. inversion Hrun; subst.
      apply getCachedData_cases in Hget. tauto.
    + destruct (getWhitelistSet_miss env w w0 Hget) as (l & w1 & Hfne & Heq).
      rewrite Heq in Hrun. inversion Hrun as [[Hset Hw]].
      apply list_to_set_empty_inv in Hset. subst l. simpl.
      destruct (cascade_frame _ _ _ _ _ (whitelist_requests env) Hfne) as (_ & Hk & _).
      apply getCachedData_cases in Hget. destruct Hget as (_ & Hk0 & _).
      congruence.
Qed.

Lemma empty_result_not_cached_witness :
  kv (snd (getBlacklist env0 textWorld)) = kv textWorld.
Proof.
  apply (proj1 (empty_result_not_cached env0 textWorld (snd (getBlacklist env0 textWorld)))).
  by_running.
Defined.

(** X11: after a cache miss that ended in a non-empty deny-list, with the
    store reachable, a second call made less than [ttl * 1000] ms later
    returns the same list from the cache: its only external call is the read
    of the cache entry. *)
Theorem getBlacklist_served_from_cache (env : Env) (w w0 w' : World)
    (l : list string) (ttl t : Z) :
  parseInt (orElse (CACHE_TTL env) "300") = Int ttl ->
  kvFaults w = [] ->
  clock w <> 0 ->
  getCachedData "blacklist" env w = (Val None, w0) ->
  getBlacklist env w = (Val l, w') ->
  l <> [] ->
  clock w <= t -> t - clock w < ttl * 1000 ->
  exists w'',
    getBlacklist env (setClock t w') = (Val l, w'')
    /\ trace w'' = (trace w' ++ [KvGet (cacheKeyOf "blacklist")])%list.
Proof.
  intros Httl Hf Hnz Hget Hrun Hne Hle Hage.
  destruct (getBlacklist_miss env w w0 Hget) as (l1 & w1 & Hfne & Heq).
  rewrite Heq in Hrun. inversion Hrun as [[Hl Hw']]. subst l1.
  destruct l as [| x l]; [contradiction |]. simpl isEmpty in *. cbv iota in *.
  destruct (cascade_frame _ _ _ _ _ (blacklist_requests env) Hfne) as (Hc1 & _ & Hf1).
  apply getCachedData_cases in Hget.
  destruct Hget as (Hc0 & _ & _ & _ & _ & _ & Hcons).
  assert (Hf0 : kvFaults w0 = []).
  { destruct Hcons as [[[(_ & H0 & _) | H0] _] | [[(_ & H0 & _) | H0] _]];
      try exact H0; rewrite Hf in H0; discriminate. }
  assert (Hclock : clock w1 = clock w) by congruence.
  destruct (setCachedData_getCachedData "blacklist" (x :: l) env w1 ttl t Httl)
    as [Hread _]; try lia; try congruence.
  rewrite Hclock in Hread.
  destruct (Z.ltb_spec (t - clock w) (ttl * 1000)) as [_ | Hge]; [| lia].
  set (w2 := setClock t (snd (setCachedData "blacklist" (x :: l) env w1))) in *.
  destruct (getCachedData "blacklist" env w2) as [o w3] eqn:Hget2.
  simpl in Hread. subst o.
  exists w3. split.
  - apply getBlacklist_hit. exact Hget2.
  - apply getCachedData_cases in Hget2.
    destruct Hget2 as (_ & _ & _ & _ & _ & Ht & _). exact Ht.
Qed.

Lemma getBlacklist_served_from_cache_witness :
  exists w'',
    getBlacklist env0 (setClock 1700000200000 (snd (getBlacklist env0 denyWorld)))
      = (Val ["198.51.100.9"], w'')
    /\ fetches (trace w'') = fetches (trace (snd (getBlacklist env0 denyWorld))).
Proof.
  destruct (getBlacklist_served_from_cache env0 denyWorld
              (log (KvGet "cache:blacklist") denyWorld)
              (snd (getBlacklist env0 denyWorld)) ["198.51.100.9"] 300 1700000200000)
    as (w'' & Hrun & Ht);
    [by_running | reflexivity | discriminate | by_running | by_running
    | discriminate | simpl; lia | simpl; lia |].
  exists w''. split; [exact Hrun |]. rewrite Ht, fetches_app. simpl.
  apply app_nil_r.
Defined.

(** ** Access validator: answers and external calls *)

(** X12: the validator always answers, and only with status 200, 400, 403,
    405 or 500; nothing it calls makes it raise. *)
Theorem validator_status_codes {engine : Engine}
    (request : Request) (env : Env) (w : World) :
  exists response w',
    handleValidation request env w = (Val response, w')
    /\ validatorStatus (status response).
Proof.
  unfold validatorStatus.
  destruct (String.eqb_spec (method request) "POST") as [Hm | Hm].
  2:{ rewrite handleValidation_not_post by exact Hm. eexists _, _.
      split; [reflexivity |]. simpl. auto. }
  destruct (requestJson request) as [form |] eqn:Hb.
  2:{ rewrite handleValidation_bad_json by assumption. eexists _, _.
      split; [reflexivity |]. simpl. auto 6. }
  destruct (verifyTurnstile_total (turnstileToken form) (clientIPOf request) w)
    as (valid & w1 & Hv).
  destruct (getBlacklist_total env w1) as (bl & w2 & Hbl).
  destruct (getWhitelistSet_total env w2) as (wl & w3 & Hwl).
  destruct (getRandomRedirectUrl_total env w3) as (u & w4 & Hr).
  rewrite (handleValidation_stages request env form w w1 w2 w3 w4 valid bl wl u
             Hm Hb Hv Hbl Hwl Hr).
  destruct (honeypotFilled form);
    [eexists _, _; split; [reflexivity | simpl; auto] |].
  destruct (wellFormed form); cbn [negb].
  2:{ eexists _, _. split; [reflexivity |].
      destruct (negb (truthy (email form)) || negb (truthy (turnstileToken form)));
        simpl; auto. }
  destruct valid; cbn [negb];
    [| eexists _, _; split; [reflexivity | simpl; auto]].
  destruct (includes bl (clientIPOf request));
    [eexists _, _; split; [reflexivity | simpl; auto] |].
  destruct (bool_decide _); cbn [negb];
    [| eexists _, _; split; [reflexivity | simpl; auto]].
  destruct (truthy u); cbn [negb];
    eexists _, _; (split; [reflexivity | simpl; auto 6]).
Qed.

(** X13: a request turned away for its method, its body or the shape of its
    input costs no external call.  A method other than POST gets the 405, a
    body the handler cannot read as a form (it is not JSON, or its honeypot
    is a truthy value that is not a string) the 500 "Internal server error",
    and a form with a blank honeypot that lacks the email or the token, or
    whose email does not match the pattern, a 400; in each case the world is
    left as it was. *)
Theorem early_rejections_are_quiet {engine : Engine}
    (request : Request) (env : Env) (w : World) :
  (method request <> "POST" ->
     handleValidation request env w
       = (Val (mkResponse (Some "Method Not Allowed") 405 []), w))
  /\ (method request = "POST" -> requestJson request = None ->
        handleValidation request env w
          = (Val (failure "Internal server error" 500), w))
  /\ (forall form,
        method request = "POST" -> requestJson request = Some form ->
        honeypotFilled form = false -> wellFormed form = false ->
        handleValidation request env w
          = (Val (if negb (truthy (email form)) || negb (truthy (turnstileToken form))
                  then failure "Missing required fields" 400
                  else failure "Invalid email format" 400), w)).
Proof.
  split; [apply handleValidation_not_post |].
  split; [apply handleValidation_bad_json |].
  intros form Hm Hb Hh Hwf.
  destruct (verifyTurnstile_total (turnstileToken form) (clientIPOf request) w)
    as (valid & w1 & Hv).
  destruct (getBlacklist_total env w1) as (bl & w2 & Hbl).
  destruct (getWhitelistSet_total env w2) as (wl & w3 & Hwl).
  destruct (getRandomRedirectUrl_total env w3) as (u & w4 & Hr).
  rewrite (handleValidation_stages request env form w w1 w2 w3 w4 valid bl wl u
             Hm Hb Hv Hbl Hwl Hr).
  rewrite Hh, Hwf. reflexivity.
Qed.

Lemma early_rejections_are_quiet_witness :
  handleValidation (postFrom "203.0.113.7" "admin@co" None) env0 textWorld
    = (Val (failure "Invalid email format" 400), textWorld).
Proof.
  destruct (early_rejections_are_quiet (postFrom "203.0.113.7" "admin@co" None)
              env0 textWorld) as (_ & _ & Hform).
  exact (Hform (mkBody (Some "admin@co") (Some "token") None)
           eq_refl eq_refl eq_refl eq_refl).
Defined.

(** X14: the bot verification fails closed, once.  For a well-formed form
    with a blank honeypot, when the verification service is unreachable,
    answers with a body that is not JSON, or answers [success: false], the
    response is the 400 "Verification failed", and the single call to the
    service is the only external call: no retry, no store access and no
    list is fetched. *)
Theorem failed_verification_single_call {engine : Engine} (request : Request) (env : Env)
    (form : ValidationBody) (w : World) :
  method request = "POST" ->
  requestJson request = Some form ->
  honeypotFilled form = false ->
  wellFormed form = true ->
  siteverify w (interp (turnstileToken form)) (clientIPOf request)
    <> VerifyResult true ->
  handleValidation request env w
    = (Val verificationFailed,
       log (SiteVerify (interp (turnstileToken form)) (clientIPOf request)) w).
Proof.
  intros Hm Hb Hh Hwf Hfail.
  assert (Htok : truthy (turnstileToken form) = true).
  { unfold wellFormed in Hwf.
    destruct (truthy (email form)); [| discriminate].
    destruct (truthy (turnstileToken form)); [reflexivity | discriminate]. }
  pose proof (verifyTurnstile_eq (turnstileToken form) (clientIPOf request) w) as Hv.
  rewrite Htok in Hv.
  assert (Hfalse : match siteverify w (interp (turnstileToken form)) (clientIPOf request) with
                   | VerifyResult success => success
                   | _ => false
                   end = false).
  { destruct (siteverify w _ _) as [| | []]; try reflexivity. contradiction. }
  rewrite Hfalse in Hv.
  set (w1 := log _ w) in *.
  destruct (getBlacklist_total env w1) as (bl & w2 & Hbl).
  destruct (getWhitelistSet_total env w2) as (wl & w3 & Hwl).
  destruct (getRandomRedirectUrl_total env w3) as (u & w4 & Hr).
  rewrite (handleValidation_stages request env form w w1 w2 w3 w4 false bl wl u
             Hm Hb Hv Hbl Hwl Hr).
  rewrite Hh, Hwf. reflexivity.
Qed.

Lemma failed_verification_single_call_witness :
  let request := postFrom "203.0.113.7" "admin@co.com" None in
  handleValidation request env0 (listsWorld noVerdict)
    = (Val verificationFailed,
       log (SiteVerify "token" "203.0.113.7") (listsWorld noVerdict)).
Proof.
  intros request.
  apply (failed_verification_single_call request env0
           (mkBody (Some "admin@co.com") (Some "token") None) (listsWorld noVerdict));
    try reflexivity.
  discriminate.
Defined.

(** ** The allow-list set *)

(** X17: a freshly fetched allow-list is a set of lower-cased strings:
    every element of the set the fetcher returns after a cache miss is its
    own lower-case form, so an address that is not in lower case is never
    an element and is matched only through its lower-case form. *)
Theorem getWhitelistSet_lowercase {engine : Engine} (env : Env) (w w0 w' : World)
    (whitelistSet : gset string) (x : string) :
  getCachedData "whitelist_set" env w = (Val None, w0) ->
  getWhitelistSet env w = (Val whitelistSet, w') ->
  x ∈ whitelistSet ->
  toLowerCase x = x.
Proof.
  intros Hmiss Hrun Hx.
  destruct (getWhitelistSet_document env w w0 Hmiss) as (w2 & Hdoc).
  rewrite Hdoc in Hrun. inversion Hrun; subst.
  apply elem_of_list_to_set, list_elem_of_In, in_map_iff in Hx.
  destruct Hx as (y & <- & _). apply toLowerCase_idempotent.
Qed.

Lemma getWhitelistSet_lowercase_witness :
  "User@Example.com" ∉ (list_to_set ["user@example.com"; "admin@co.com"] : gset string).
Proof.
  intros Hin.
  assert (Hlow : toLowerCase "User@Example.com" = "User@Example.com").
  { apply (getWhitelistSet_lowercase env0 textWorld
             (log (KvGet "cache:whitelist_set") textWorld)
             (snd (getWhitelistSet env0 textWorld))
             (list_to_set ["user@example.com"; "admin@co.com"]) "User@Example.com");
      [by_running | by_running | exact Hin]. }
  vm_compute in Hlow. discriminate.
Defined.
